(** * Forensic damage report front end: metrics extractor and orchestration

    A shallow embedding of [src/App.tsx] ([parseAnalysisMetrics],
    [handleAnalysis], [resetApp]) and of [src/services/geminiService.ts]
    ([analyzeAccident], [generateImpactDiagram]), together with the part of
    the JavaScript runtime they rely on: UTF-16 strings, the backtracking
    regular-expression matcher, [String.prototype.match], [parseInt],
    [trim] and [includes]. *)

From Stdlib Require Import String Ascii List Bool Arith NArith ZArith Lia.
Import ListNotations.

Set Implicit Arguments.

(* ===================================================================== *)
(** ** The JavaScript values the program manipulates                      *)
(* ===================================================================== *)

Module JS.

(** A JavaScript string is a sequence of UTF-16 code units. *)
Definition code_unit := N.
Definition jsstring := list code_unit.

(** String literals of the source, written as Rocq strings. *)
Fixpoint lit (s : string) : jsstring :=
  match s with
  | EmptyString => []
  | String a s' => N_of_ascii a :: lit s'
  end.

Fixpoint jsstring_eqb (a b : jsstring) : bool :=
  match a, b with
  | [], [] => true
  | x :: a', y :: b' => N.eqb x y && jsstring_eqb a' b'
  | _, _ => false
  end.

(** [is_prefix p s]: the code units of [p] are the first ones of [s]. *)
Fixpoint is_prefix (p s : jsstring) : bool :=
  match p, s with
  | [], _ => true
  | x :: p', y :: s' => N.eqb x y && is_prefix p' s'
  | _ :: _, [] => false
  end.

(** [String.prototype.includes]. *)
Fixpoint includes (s pat : jsstring) : bool :=
  is_prefix pat s ||
  match s with
  | [] => false
  | _ :: s' => includes s' pat
  end.

(** LineTerminator code units: LF, CR, LS, PS. *)
Definition is_line_terminator (c : code_unit) : bool :=
  (N.eqb c 10 || N.eqb c 13 || N.eqb c 8232 || N.eqb c 8233)%N.

(** WhiteSpace and LineTerminator code units, as stripped by [trim]. *)
Definition is_white_space (c : code_unit) : bool :=
  (N.eqb c 9 || N.eqb c 11 || N.eqb c 12 || N.eqb c 32 || N.eqb c 160
   || N.eqb c 5760 || ((8192 <=? c) && (c <=? 8202)) || N.eqb c 8239
   || N.eqb c 8287 || N.eqb c 12288 || N.eqb c 65279
   || is_line_terminator c)%N.

Fixpoint trimStart (s : jsstring) : jsstring :=
  match s with
  | [] => []
  | c :: s' => if is_white_space c then trimStart s' else s
  end.

Definition trimEnd (s : jsstring) : jsstring := rev (trimStart (rev s)).

(** [String.prototype.trim]. *)
Definition trim (s : jsstring) : jsstring := trimEnd (trimStart s).

(** The Number values that arise here: integers (as doubles), the
    infinities and NaN.  Negative zero is identified with zero. *)
Inductive number : Type :=
| NaN
| Num (z : Z)
| Infinity (negative : bool).

Definition is_digit (c : code_unit) : bool := ((48 <=? c) && (c <=? 57))%N.

Fixpoint digits_prefix (s : jsstring) : jsstring :=
  match s with
  | [] => []
  | c :: s' => if is_digit c then c :: digits_prefix s' else []
  end.

(** The mathematical value of a run of decimal digits. *)
Definition decimal_value (ds : jsstring) : Z :=
  fold_left (fun acc c => 10 * acc + (Z.of_N c - 48))%Z ds 0%Z.

(** Round a non-negative integer to the nearest IEEE 754 double, ties to
    even; values that round to 2^1024 or more become Infinity. *)
Definition round_to_double (m : Z) : number :=
  (if m <? 2 ^ 53 then Num m
   else
     let e := Z.log2 m - 52 in
     let q := m / 2 ^ e in
     let r := m mod 2 ^ e in
     let q' := if (2 * r >? 2 ^ e) || ((2 * r =? 2 ^ e) && Z.odd q)
               then q + 1 else q in
     let v := q' * 2 ^ e in
     if v >=? 2 ^ 1024 then Infinity false else Num v)%Z.

Definition negate (x : number) : number :=
  match x with
  | NaN => NaN
  | Num z => Num (- z)
  | Infinity b => Infinity (negb b)
  end.

(** [parseInt(s, 10)]: leading white space is skipped, an optional sign
    is read, then the longest prefix of decimal digits; NaN when that
    prefix is empty. *)
Definition parseInt10 (s : jsstring) : number :=
  let s1 := trimStart s in
  let '(neg, s2) :=
    match s1 with
    | c :: s' => if N.eqb c 45 then (true, s')
                 else if N.eqb c 43 then (false, s')
                 else (false, s1)
    | [] => (false, s1)
    end in
  match digits_prefix s2 with
  | [] => NaN
  | ds => let v := round_to_double (decimal_value ds) in
          if neg then negate v else v
  end.

(** [ToString] of a value that is a string or [undefined]. *)
Definition to_string (v : option jsstring) : jsstring :=
  match v with
  | Some s => s
  | None => lit "undefined"
  end.

(** Truthiness of a value that is a string or [undefined]. *)
Definition truthy (v : option jsstring) : bool :=
  match v with
  | Some (_ :: _) => true
  | _ => false
  end.

(** *** Regular expressions (the fragment the source uses) *)

Inductive regex : Type :=
| Empty
| Char (c : code_unit)           (* a literal character *)
| AnyChar                        (* .   any code unit but a line terminator *)
| DigitClass                     (* \d  *)
| Seq (r1 r2 : regex)
| Alt (r1 r2 : regex)            (* r1|r2 *)
| Star (greedy : bool) (r : regex)  (* r* and r*? *)
| Group (n : nat) (r : regex).   (* the n-th capturing group *)

Definition Plus (greedy : bool) (r : regex) : regex := Seq r (Star greedy r).

Fixpoint Str (s : jsstring) : regex :=
  match s with
  | [] => Empty
  | c :: s' => Seq (Char c) (Str s')
  end.

Definition captures := list (nat * jsstring).

Fixpoint capture (n : nat) (caps : captures) : option jsstring :=
  match caps with
  | [] => None
  | (m, s) :: caps' => if Nat.eqb m n then Some s else capture n caps'
  end.

(** What was consumed between the input [s] and its suffix [s']. *)
Definition consumed (s s' : jsstring) : jsstring :=
  firstn (length s - length s') s.

Definition continuation :=
  jsstring -> captures -> option (jsstring * captures).

(** The repetition of a star.  [step] matches the starred atom once; an
    iteration that consumes nothing is rejected.  A greedy star tries one
    more iteration before leaving, a lazy one leaves first.  Every
    iteration shortens the input, so [S (length s)] rounds are enough. *)
Fixpoint star_loop
         (step : jsstring -> captures -> continuation ->
                 option (jsstring * captures))
         (greedy : bool) (k : continuation)
         (fuel : nat) (s : jsstring) (caps : captures) {struct fuel}
  : option (jsstring * captures) :=
  match fuel with
  | O => None
  | S fuel' =>
      let again s' caps' :=
        if length s' <? length s
        then star_loop step greedy k fuel' s' caps' else None in
      if greedy then
        match step s caps again with
        | Some m => Some m
        | None => k s caps
        end
      else
        match k s caps with
        | Some m => Some m
        | None => step s caps again
        end
  end.

(** The backtracking matcher, in continuation-passing style: [exec r s caps k]
    matches [r] at the front of [s] and hands the rest of the input to
    [k]; when [k] fails, the next alternative of [r] is tried. *)
Fixpoint exec (r : regex) (s : jsstring) (caps : captures) (k : continuation)
         {struct r} : option (jsstring * captures) :=
  match r with
  | Empty => k s caps
  | Char c =>
      match s with
      | x :: s' => if N.eqb x c then k s' caps else None
      | [] => None
      end
  | AnyChar =>
      match s with
      | x :: s' => if is_line_terminator x then None else k s' caps
      | [] => None
      end
  | DigitClass =>
      match s with
      | x :: s' => if is_digit x then k s' caps else None
      | [] => None
      end
  | Seq r1 r2 => exec r1 s caps (fun s1 caps1 => exec r2 s1 caps1 k)
  | Alt r1 r2 =>
      match exec r1 s caps k with
      | Some m => Some m
      | None => exec r2 s caps k
      end
  | Star greedy r1 => star_loop (exec r1) greedy k (S (length s)) s caps
  | Group n r1 =>
      exec r1 s caps (fun s' caps' => k s' ((n, consumed s s') :: caps'))
  end.

(** A successful match: the matched text, the captures, and the input
    that follows the match. *)
Record match_result : Type := MatchResult {
  m_text : jsstring;
  m_groups : captures;
  m_rest : jsstring
}.

Definition exec_at (r : regex) (s : jsstring) : option match_result :=
  match exec r s [] (fun s' caps => Some (s', caps)) with
  | Some (rest, caps) => Some (MatchResult (consumed s rest) caps rest)
  | None => None
  end.

(** [RegExpBuiltinExec] for a regex that is not sticky: the first
    position, from the current one on, where the regex matches. *)
Fixpoint regexp_exec (r : regex) (s : jsstring) : option match_result :=
  match exec_at r s with
  | Some m => Some m
  | None =>
      match s with
      | [] => None
      | _ :: s' => regexp_exec r s'
      end
  end.

(** [s.match(r)] for [r] without the [g] flag: the match array or null. *)
Definition match_first (s : jsstring) (r : regex) : option match_result :=
  regexp_exec r s.

(** [s.match(r)] for [r] with the [g] flag: [lastIndex] starts at 0, each
    match resumes the search where the previous one ended (one further
    when it was empty); the result is the array of matched texts, or null
    when there is none. *)
Fixpoint match_from (fuel : nat) (r : regex) (s : jsstring) : list jsstring :=
  match fuel with
  | O => []
  | S fuel' =>
      match regexp_exec r s with
      | None => []
      | Some m =>
          m_text m ::
          match m_text m with
          | _ :: _ => match_from fuel' r (m_rest m)
          | [] =>
              match m_rest m with
              | [] => []
              | _ :: rest' => match_from fuel' r rest'
              end
          end
      end
  end.

Definition match_global (s : jsstring) (r : regex) : option (list jsstring) :=
  match match_from (S (length s)) r s with
  | [] => None
  | ms => Some ms
  end.

(** [a || []] for [a] an array or null. *)
Definition or_empty {A : Type} (a : option (list A)) : list A :=
  match a with
  | Some l => l
  | None => []
  end.

(** [a.length] as a Number. *)
Definition array_length {A : Type} (a : list A) : number :=
  Num (Z.of_nat (length a)).

End JS.

(* ===================================================================== *)
(** ** The data model ([types.ts])                                        *)
(* ===================================================================== *)

Module Types.
Import JS.

Record VehicleDetails : Type := {
  year : jsstring;
  make : jsstring;
  model : jsstring
}.

(** A browser [File]: its MIME type, and what a [FileReader] delivers for
    [readAsDataURL]: the data URL on [onload], nothing on [onerror]. *)
Record File : Type := {
  type : jsstring;
  dataURL : option jsstring
}.

Record AccidentInput : Type := {
  vehicle : VehicleDetails;
  description : jsstring;
  context : jsstring;
  images : list File
}.

Inductive FraudRisk : Type := LOW | MEDIUM | HIGH | CRITICAL.

Record AnalysisMetrics : Type := {
  severityScore : number;   (* 1-10 *)
  fraudRisk : FraudRisk;
  replaceCount : number;
  repairCount : number;
  primaryImpact : jsstring
}.

(** A [Date], as milliseconds since the epoch. *)
Definition Date := Z.

Record AnalysisResult : Type := {
  markdown : jsstring;
  diagram : option jsstring;
  timestamp : Date;
  metrics : AnalysisMetrics
}.

Inductive AppState : Type := IDLE | ANALYZING | COMPLETE | ERROR.

(** Field assignments [metrics.f = v]. *)
Definition set_severityScore (v : number) (m : AnalysisMetrics) :=
  {| severityScore := v; fraudRisk := fraudRisk m;
     replaceCount := replaceCount m; repairCount := repairCount m;
     primaryImpact := primaryImpact m |}.
Definition set_fraudRisk (v : FraudRisk) (m : AnalysisMetrics) :=
  {| severityScore := severityScore m; fraudRisk := v;
     replaceCount := replaceCount m; repairCount := repairCount m;
     primaryImpact := primaryImpact m |}.
Definition set_replaceCount (v : number) (m : AnalysisMetrics) :=
  {| severityScore := severityScore m; fraudRisk := fraudRisk m;
     replaceCount := v; repairCount := repairCount m;
     primaryImpact := primaryImpact m |}.
Definition set_repairCount (v : number) (m : AnalysisMetrics) :=
  {| severityScore := severityScore m; fraudRisk := fraudRisk m;
     replaceCount := replaceCount m; repairCount := v;
     primaryImpact := primaryImpact m |}.
Definition set_primaryImpact (v : jsstring) (m : AnalysisMetrics) :=
  {| severityScore := severityScore m; fraudRisk := fraudRisk m;
     replaceCount := replaceCount m; repairCount := repairCount m;
     primaryImpact := v |}.

End Types.

(* ===================================================================== *)
(** ** The metrics extractor ([App.tsx], [parseAnalysisMetrics])          *)
(* ===================================================================== *)

Module Extractor.
Import JS Types.

(** Statements that update the local [metrics] object and either complete
    or throw; what was assigned before a throw stays assigned. *)
Inductive completion : Type :=
| Normal
| Throw (message : jsstring).

Definition stmt := AnalysisMetrics -> AnalysisMetrics * completion.

Definition skip : stmt := fun m => (m, Normal).
Definition assign (f : AnalysisMetrics -> AnalysisMetrics) : stmt :=
  fun m => (f m, Normal).
Definition throw (message : jsstring) : stmt := fun m => (m, Throw message).
Definition seq (a b : stmt) : stmt :=
  fun m =>
    match a m with
    | (m', Normal) => b m'
    | (m', Throw e) => (m', Throw e)
    end.
Definition try_catch (body : stmt) (handler : jsstring -> stmt) : stmt :=
  fun m =>
    match body m with
    | (m', Normal) => (m', Normal)
    | (m', Throw e) => handler e m'
    end.

Declare Scope stmt_scope.
Delimit Scope stmt_scope with stmt.
Notation "a ;; b" := (seq a b) (at level 61, right associativity) : stmt_scope.

(** [/Severity.*?(\d+)\/10/] *)
Definition severity_re : regex :=
  Seq (Str (lit "Severity"))
    (Seq (Star false AnyChar)
       (Seq (Group 1 (Plus true DigitClass)) (Str (lit "/10")))).

(** [/\[SUSPICIOUS\]|\[INCONSISTENT\]|\[DETECTED\]|\[FAIL\]/g] *)
Definition suspicious_re : regex :=
  Alt (Str (lit "[SUSPICIOUS]"))
    (Alt (Str (lit "[INCONSISTENT]"))
       (Alt (Str (lit "[DETECTED]")) (Str (lit "[FAIL]")))).

(** [/\[REPLACE\]/g] and [/\[REPAIR\]/g] *)
Definition replace_re : regex := Str (lit "[REPLACE]").
Definition repair_re : regex := Str (lit "[REPAIR]").

(** [/\| Primary Impact Zone \| (.*?) \|/] *)
Definition impact_re : regex :=
  Seq (Str (lit "| Primary Impact Zone | "))
    (Seq (Group 1 (Star false AnyChar)) (Str (lit " |"))).

Definition default_metrics : AnalysisMetrics :=
  {| severityScore := Num 0; fraudRisk := LOW; replaceCount := Num 0;
     repairCount := Num 0; primaryImpact := lit "Unknown" |}.

(** [n >= 2] and [n === 1] on the length of an array. *)
Definition risk_of_count (n : nat) : FraudRisk :=
  if 2 <=? n then HIGH else if n =? 1 then MEDIUM else LOW.

(** The body of the [try] block, statement by statement. *)
Definition extract_severity (markdown : jsstring) : stmt :=
  match match_first markdown severity_re with
  | Some severityMatch =>
      assign (set_severityScore
                (parseInt10 (to_string (capture 1 (m_groups severityMatch)))))
  | None => skip
  end.

Definition extract_fraud (markdown : jsstring) : stmt :=
  let suspiciousCount :=
    length (or_empty (match_global markdown suspicious_re)) in
  assign (set_fraudRisk (risk_of_count suspiciousCount)).

Definition extract_counts (markdown : jsstring) : stmt :=
  (assign (set_replaceCount
             (array_length (or_empty (match_global markdown replace_re)))) ;;
   assign (set_repairCount
             (array_length (or_empty (match_global markdown repair_re)))))%stmt.

(** [impactMatch[1].trim()] throws a TypeError when the group is
    undefined. *)
Definition extract_impact (markdown : jsstring) : stmt :=
  match match_first markdown impact_re with
  | Some impactMatch =>
      match capture 1 (m_groups impactMatch) with
      | Some g => assign (set_primaryImpact (trim g))
      | None => throw (lit "Cannot read properties of undefined")
      end
  | None => skip
  end.

Definition try_block (markdown : jsstring) : stmt :=
  (extract_severity markdown ;;
   extract_fraud markdown ;;
   extract_counts markdown ;;
   extract_impact markdown)%stmt.

(** The handler only writes to the console. *)
Definition parseAnalysisMetrics (markdown : jsstring) : AnalysisMetrics :=
  fst (try_catch (try_block markdown) (fun _ => skip) default_metrics).

End Extractor.

(* ===================================================================== *)
(** ** The AI gateway ([services/geminiService.ts])                       *)
(* ===================================================================== *)

Module GeminiService.
Import JS Types.
Local Open Scope string_scope.
Local Open Scope list_scope.

(** Lines of a template literal, joined by line feeds. *)
Fixpoint text_lines (ls : list string) : jsstring :=
  match ls with
  | [] => []
  | [l] => lit l
  | l :: ls' => lit l ++ 10%N :: text_lines ls'
  end.

(** The double quotes of a source text are written as back quotes in the
    literals below; [quoted] puts them back. *)
Definition quoted (s : jsstring) : jsstring :=
  map (fun c => if N.eqb c 96 then 34%N else c) s.

(** Decimal rendering of an array length inside a template literal. *)
Fixpoint uint_digits (d : Decimal.uint) : jsstring :=
  match d with
  | Decimal.Nil => []
  | Decimal.D0 d' => 48%N :: uint_digits d'
  | Decimal.D1 d' => 49%N :: uint_digits d'
  | Decimal.D2 d' => 50%N :: uint_digits d'
  | Decimal.D3 d' => 51%N :: uint_digits d'
  | Decimal.D4 d' => 52%N :: uint_digits d'
  | Decimal.D5 d' => 53%N :: uint_digits d'
  | Decimal.D6 d' => 54%N :: uint_digits d'
  | Decimal.D7 d' => 55%N :: uint_digits d'
  | Decimal.D8 d' => 56%N :: uint_digits d'
  | Decimal.D9 d' => 57%N :: uint_digits d'
  end.

Definition nat_to_string (n : nat) : jsstring := uint_digits (Nat.to_uint n).

(** [s.split(',')]. *)
Fixpoint split_comma (s : jsstring) : list jsstring :=
  match s with
  | [] => [[]]
  | c :: s' =>
      if N.eqb c 44 then [] :: split_comma s'
      else
        match split_comma s' with
        | piece :: pieces => (c :: piece) :: pieces
        | [] => [[c]]
        end
  end.

(** *** Requests and responses of the SDK *)

Record Blob : Type := {
  mimeType : option jsstring;
  data : option jsstring
}.

Record Part : Type := {
  inlineData : option Blob;
  text : option jsstring
}.

Record Config : Type := {
  systemInstruction : option jsstring;
  temperature : option (Z * Z);          (* numerator, denominator *)
  imageConfig_aspectRatio : option jsstring
}.

Record GenerateContentParameters : Type := {
  gc_model : jsstring;
  contents_parts : list Part;
  config : Config
}.

Record Content : Type := { parts : option (list Part) }.
Record Candidate : Type := { content : option Content }.

Record GenerateContentResponse : Type := {
  response_text : option jsstring;        (* the [text] accessor *)
  candidates : option (list Candidate)
}.

(** What a promise is rejected with, or what a [throw] raises. *)
Inductive exn : Type :=
| Error (message : jsstring)
| ReaderError
| ServiceFailure (detail : jsstring).

(** A settled promise: rejected ([inl]) or fulfilled ([inr]). *)
Definition promise (A : Type) : Type := (exn + A)%type.

Definition bind {A B : Type} (p : promise A) (f : A -> promise B) : promise B :=
  match p with
  | inl e => inl e
  | inr a => f a
  end.

Declare Scope promise_scope.
Delimit Scope promise_scope with promise.
Notation "'await' x <- p ; q" := (bind p (fun x => q))
  (at level 10, x name, p at level 100, q at level 200) : promise_scope.

(** [Promise.all] of two promises.  When both are rejected the reason is
    that of whichever settled first; [handleAnalysis] does not inspect it. *)
Definition promise_all2 {A B : Type} (p : promise A) (q : promise B)
  : promise (A * B) :=
  match p, q with
  | inr a, inr b => inr (a, b)
  | inl e, _ => inl e
  | inr _, inl e => inl e
  end.

Definition SYSTEM_INSTRUCTION : jsstring :=
  quoted (text_lines
    [EmptyString;
     "You are an expert Certified Automotive Damage Analyst (CADA) and Forensic Accident Reconstructionist. Your goal is to provide a strictly technical analysis focusing on impact physics, repair methodology logic, and **FRAUD DETECTION**.";
     EmptyString;
     "Primary Rules:";
     "1. **No Financials**: Do NOT estimate prices or labor costs. Focus purely on technical and physical analysis.";
     "2. **Fraud Detection**: You must aggressively check for `Enhanced Damages` (manual damage added after accident), `Pre-existing Damage` (rust, old putty), and `Physics Inconsistencies` (damage height not matching the described object).";
     "3. **Repair vs. Replace**: Provide technical justification for every decision (e.g., `HSS Steel cannot be heated/straightened`, `Plastic tabs torn`).";
     "4. **Vector Analysis**: Analyze the direction of force and kinetic energy transfer.";
     EmptyString;
     "Expected Output Structure:";
     "Generate the entire response as a single, structured Markdown block.";
     EmptyString;
     "# Incident Physics & Vector Analysis";
     "| Metric | Analysis |";
     "| :--- | :--- |";
     "| Primary Impact Zone | [e.g., Rear Bumper Reinforcement] |";
     "| Force Vector (Clock) | [e.g., 6 o'clock direct impact] |";
     "| Impact Severity (1-10) | [e.g., 8/10] |";
     "| Kinetic Energy Transfer | [Describe how energy traveled through the chassis, e.g., `Absorbed by crash box, transferred to rails`] |";
     EmptyString;
     "# Fraud & Consistency Audit";
     "*Analyze if the physical evidence matches the story.*";
     EmptyString;
     "| Check | Finding | Status |";
     "| :--- | :--- | :--- |";
     "| Story Consistency | [Does the damage match the user's description?] | [CONSISTENT] or [INCONSISTENT] |";
     "| Pre-existing Damage | [Look for rust on `fresh` dents, faded paint, or old body filler] | [CLEAR] or [DETECTED] |";
     "| Artificial Enhancement | [Look for hammer marks, linear scratches not from impact, or separate unrelated damage] | [CLEAR] or [SUSPICIOUS] |";
     "| Physics Check | [Is the damage height/shape consistent with the alleged object struck?] | [PASS] or [FAIL] |";
     EmptyString;
     "# Repair vs. Replace Strategy";
     "*Technical decision making based on OEM guidelines.*";
     EmptyString;
     "| Component | Action | Technical Justification |";
     "| :--- | :--- | :--- |";
     "| [Part Name] | [REPLACE] | [e.g., `Kinked beyond repair limits`, `Safety component`, `Torn mounting tabs`] |";
     "| [Part Name] | [REPAIR] | [e.g., `Accessible for PDR`, `Minor cosmetic scrape only`] |";
     "| [Part Name] | [INSPECT] | [e.g., `Check for micro-fractures`, `Verify sensor calibration`] |";
     EmptyString;
     "*Disclaimer: This analysis is based on visual evidence and provided description. Hidden structural damage may exist.*";
     EmptyString]).

(** [result.split(',')[1]] of what the reader delivered. *)
Definition fileToBase64 (file : File) : promise (option jsstring) :=
  match dataURL file with
  | Some result => inr (nth_error (split_comma result) 1)
  | None => inl ReaderError
  end.

(** The loop that encodes the attached images, one [await] after another. *)
Fixpoint encode_images (files : list File) : promise (list Part) :=
  match files with
  | [] => inr []
  | image :: rest =>
      (await base64Data <- fileToBase64 image;
       await more <- encode_images rest;
       inr ({| inlineData := Some {| mimeType := Some (type image);
                                     data := base64Data |};
               text := None |} :: more))%promise
  end.

Definition userPrompt (input : AccidentInput) : jsstring :=
  concat
    [text_lines
       [EmptyString;
        "    Perform a Forensic Damage & Fraud Analysis based on:";
        EmptyString;
        "    Vehicle Details: "];
     year (vehicle input); lit " "; make (vehicle input); lit " ";
     model (vehicle input);
     text_lines
       [EmptyString;
        "    ";
        "    Accident Description: "];
     description input;
     text_lines
       [EmptyString;
        "    ";
        "    Context/Conditions: "];
     (if truthy (Some (context input)) then context input
      else lit "None provided");
     text_lines
       [EmptyString;
        "    ";
        "    "];
     (if (0 <? length (images input))%nat
      then lit "Analyze the " ++ nat_to_string (length (images input)) ++
           lit " attached images combined with the text. Scrutinize for inconsistencies across angles, rust, or 'staged' damage patterns."
      else lit "Analyze based on text description.");
     text_lines
       [EmptyString;
        "  "]].

(** The impact-side hint derived from the lowercased description. *)
Definition locationInstruction (descLower : jsstring) : jsstring :=
  if includes descLower (lit "right") || includes descLower (lit "passenger")
     || includes descLower (lit "rh")
  then lit "EXTREMELY IMPORTANT: The damage is on the RIGHT side. You MUST render the RED impact vector on the RIGHT SIDE of the image canvas."
  else if includes descLower (lit "left") || includes descLower (lit "driver")
          || includes descLower (lit "lh")
  then lit "EXTREMELY IMPORTANT: The damage is on the LEFT side. You MUST render the RED impact vector on the LEFT SIDE of the image canvas."
  else if includes descLower (lit "rear") || includes descLower (lit "back")
  then lit "EXTREMELY IMPORTANT: The damage is on the REAR. You MUST render the RED impact vector at the BOTTOM of the image canvas."
  else if includes descLower (lit "front")
  then lit "EXTREMELY IMPORTANT: The damage is on the FRONT. You MUST render the RED impact vector at the TOP of the image canvas."
  else [].

Definition diagram_prompt (input : AccidentInput) (instruction : jsstring)
  : jsstring :=
  concat
    [text_lines
       [EmptyString;
        "      Create a SIMPLE, MINIMALIST LINE DIAGRAM of a "];
     year (vehicle input); lit " "; make (vehicle input); lit " ";
     model (vehicle input);
     text_lines
       [".";
        "      ";
        "      VIEWPOINT: Strictly Top-down view (Plan View).";
        "      ";
        "      ORIENTATION RULES (CRITICAL):";
        "      1. The FRONT of the vehicle MUST point to the TOP of the image.";
        "      2. The REAR of the vehicle MUST point to the BOTTOM of the image.";
        "      ";
        "      DAMAGE SCENARIO: "];
     description input;
     text_lines
       [".";
        "      ";
        "      "];
     instruction;
     text_lines
       [EmptyString;
        "      ";
        "      VISUAL STYLE:";
        "      - WHITE background (Paper style).";
        "      - Simple BLACK outlines for the vehicle body.";
        "      - NO shading, NO blueprint grid, NO dark background.";
        "      - Medical/Forensic diagram style.";
        "      - Clean, vector-like lines.";
        "      ";
        "      ANNOTATIONS:";
        "      - Draw a BOLD RED ARROW indicating the direction of the impact force.";
        "      - Mark the specific impact zone with a RED outline or simple red shading.";
        "      - The diagram should look like a clean accident report sketch.";
        "    "]].

(** The loop over the parts of the first candidate: the first part that
    carries inline data ends it. *)
Fixpoint first_inline_image (ps : list Part) : option jsstring :=
  match ps with
  | [] => None
  | part :: rest =>
      match inlineData part with
      | Some blob =>
          let base64String := data blob in
          Some (lit "data:image/png;base64," ++ to_string base64String)
      | None => first_inline_image rest
      end
  end.

(** [response.candidates?.[0]?.content?.parts || []] *)
Definition response_parts (response : GenerateContentResponse) : list Part :=
  match candidates response with
  | Some (c :: _) =>
      match content c with
      | Some ct =>
          match parts ct with
          | Some ps => ps
          | None => []
          end
      | None => []
      end
  | _ => []
  end.

Section Host.

(** The host environment: the credential of [process.env], the remote
    service behind [ai.models.generateContent], and the runtime's
    [String.prototype.toLowerCase]. *)
Variable API_KEY : option jsstring.
Variable generateContent :
  GenerateContentParameters -> promise GenerateContentResponse.
Variable toLowerCase : jsstring -> jsstring.

Definition analysis_request (allParts : list Part) : GenerateContentParameters :=
  {| gc_model := lit "gemini-2.5-flash";
     contents_parts := allParts;
     config := {| systemInstruction := Some SYSTEM_INSTRUCTION;
                  temperature := Some (2, 10)%Z;
                  imageConfig_aspectRatio := None |} |}.

Definition analyzeAccident (input : AccidentInput) : promise jsstring :=
  if negb (truthy API_KEY) then inl (Error (lit "API Key is missing"))
  else
    (await imageParts <- encode_images (images input);
     let allParts :=
       imageParts ++ [{| inlineData := None; text := Some (userPrompt input) |}] in
     match generateContent (analysis_request allParts) with
     | inr response =>
         inr (if truthy (response_text response)
              then to_string (response_text response)
              else lit "Analysis failed to generate content.")
     | inl error => inl error
     end)%promise.

Definition diagram_request (prompt : jsstring) : GenerateContentParameters :=
  {| gc_model := lit "gemini-2.5-flash-image";
     contents_parts := [{| inlineData := None; text := Some prompt |}];
     config := {| systemInstruction := None;
                  temperature := None;
                  imageConfig_aspectRatio := Some (lit "4:3") |} |}.

(** The request that [generateImpactDiagram] sends. *)
Definition diagram_call (input : AccidentInput) : GenerateContentParameters :=
  diagram_request
    (diagram_prompt input
       (locationInstruction (toLowerCase (description input)))).

Definition generateImpactDiagram (input : AccidentInput)
  : promise (option jsstring) :=
  if negb (truthy API_KEY) then inr None
  else
    let descLower := toLowerCase (description input) in
    let prompt := diagram_prompt input (locationInstruction descLower) in
    match generateContent (diagram_request prompt) with
    | inr response => inr (first_inline_image (response_parts response))
    | inl error => inr None
    end.

End Host.

End GeminiService.

(* ===================================================================== *)
(** ** Orchestration ([App.tsx], [handleAnalysis] and [resetApp])         *)
(* ===================================================================== *)

Module App.
Import JS Types Extractor GeminiService.

(** The four [useState] cells of the component. *)
Record Component : Type := {
  appState : AppState;
  result : option AnalysisResult;
  error : option jsstring;
  analyzedImages : option (list File)
}.

Definition initial : Component :=
  {| appState := IDLE; result := None; error := None;
     analyzedImages := None |}.

Definition setAppState (v : AppState) (c : Component) : Component :=
  {| appState := v; result := result c; error := error c;
     analyzedImages := analyzedImages c |}.
Definition setResult (v : option AnalysisResult) (c : Component) : Component :=
  {| appState := appState c; result := v; error := error c;
     analyzedImages := analyzedImages c |}.
Definition setError (v : option jsstring) (c : Component) : Component :=
  {| appState := appState c; result := result c; error := v;
     analyzedImages := analyzedImages c |}.
Definition setAnalyzedImages (v : option (list File)) (c : Component)
  : Component :=
  {| appState := appState c; result := result c; error := error c;
     analyzedImages := v |}.

Section Host.

Variable API_KEY : option jsstring.
Variable generateContent :
  GenerateContentParameters -> promise GenerateContentResponse.
Variable toLowerCase : jsstring -> jsstring.

(** What [handleAnalysis] has done when it suspends at its [await]. *)
Definition handleAnalysis_begin (input : AccidentInput) (c : Component)
  : Component :=
  setAnalyzedImages (Some (images input))
    (setError None (setAppState ANALYZING c)).

(** The whole of [handleAnalysis], once both promises have settled; [now]
    is the value of [new Date()]. *)
Definition handleAnalysis (now : Date) (input : AccidentInput) (c : Component)
  : Component :=
  let c1 := handleAnalysis_begin input c in
  match promise_all2 (analyzeAccident API_KEY generateContent input)
                     (generateImpactDiagram API_KEY generateContent
                                            toLowerCase input) with
  | inr (markdown, diagram) =>
      let metrics := parseAnalysisMetrics markdown in
      setAppState COMPLETE
        (setResult (Some {| markdown := markdown; diagram := diagram;
                            timestamp := now; metrics := metrics |}) c1)
  | inl err =>
      setAppState ERROR
        (setError (Some (lit "Failed to analyze the accident data. Please verify your network connection.")) c1)
  end.

Definition resetApp (c : Component) : Component :=
  setAnalyzedImages None (setError None (setResult None (setAppState IDLE c))).

(** The events the rendered page offers: the form is shown in [IDLE]
    only, the report's reset in [COMPLETE], and Try Again in [ERROR]. *)
Inductive event : Type :=
| Submit (now : Date) (input : AccidentInput)
| Reset.

Inductive step : Component -> event -> Component -> Prop :=
| step_submit : forall c now input,
    appState c = IDLE ->
    step c (Submit now input) (handleAnalysis now input c)
| step_reset : forall c,
    appState c = COMPLETE \/ appState c = ERROR ->
    step c Reset (resetApp c).

Inductive reachable : Component -> Prop :=
| reachable_initial : reachable initial
| reachable_step : forall c e c',
    reachable c -> step c e c' -> reachable c'.

End Host.

End App.

(* ===================================================================== *)
(** ** The extraction rules as the specification words them               *)
(* ===================================================================== *)

Module Spec.
Import JS Types.

(** The first position of [d], from the left, at which [f] finds
    something. *)
Fixpoint first_match {A : Type} (f : jsstring -> option A) (d : jsstring)
  : option A :=
  match f d with
  | Some a => Some a
  | None =>
      match d with
      | [] => None
      | _ :: d' => first_match f d'
      end
  end.

(** [f] finds something at one of the first [n] positions of [d]. *)
Fixpoint matches_before {A : Type} (f : jsstring -> option A) (n : nat)
         (d : jsstring) : bool :=
  match n with
  | O => false
  | S n' =>
      match f d with
      | Some _ => true
      | None =>
          match d with
          | [] => false
          | _ :: d' => matches_before f n' d'
          end
      end
  end.

(** *** Severity *)

(** A run of digits at the front of [s] that is followed by [/10]. *)
Definition score_here (s : jsstring) : option jsstring :=
  match digits_prefix s with
  | [] => None
  | ds => if is_prefix (lit "/10") (skipn (length ds) s) then Some ds else None
  end.

(** The first such run, looking past any intervening characters. *)
Fixpoint score_after_any (s : jsstring) : option jsstring :=
  match score_here s with
  | Some ds => Some ds
  | None =>
      match s with
      | [] => None
      | _ :: s' => score_after_any s'
      end
  end.

(** The first such run before the end of the line. *)
Fixpoint score_on_line (s : jsstring) : option jsstring :=
  match score_here s with
  | Some ds => Some ds
  | None =>
      match s with
      | [] => None
      | c :: s' => if is_line_terminator c then None else score_on_line s'
      end
  end.

Definition severity_here (scan : jsstring -> option jsstring) (s : jsstring)
  : option jsstring :=
  if is_prefix (lit "Severity") s
  then scan (skipn (length (lit "Severity")) s) else None.

(** The digit run of the first occurrence of the word Severity followed,
    across any characters, by digits and [/10]. *)
Definition severity_run_any (d : jsstring) : option jsstring :=
  first_match (severity_here score_after_any) d.

(** The same with the intervening characters confined to one line. *)
Definition severity_run_on_line (d : jsstring) : option jsstring :=
  first_match (severity_here score_on_line) d.

(** The digit run parsed as a Number; 0 when there is none. *)
Definition score_of (run : option jsstring) : number :=
  match run with
  | Some ds => round_to_double (decimal_value ds)
  | None => Num 0
  end.

(** *** Fraud risk and operation counts *)

(** The number of positions of [d] at which [tok] occurs. *)
Fixpoint occurrences (tok d : jsstring) : nat :=
  (if is_prefix tok d then 1 else 0) +
  match d with
  | [] => 0
  | _ :: d' => occurrences tok d'
  end.

Definition risk_tokens : list jsstring :=
  [lit "[SUSPICIOUS]"; lit "[INCONSISTENT]"; lit "[DETECTED]"; lit "[FAIL]"].

Definition risk_token_count (d : jsstring) : nat :=
  occurrences (lit "[SUSPICIOUS]") d + occurrences (lit "[INCONSISTENT]") d
  + occurrences (lit "[DETECTED]") d + occurrences (lit "[FAIL]") d.

Definition risk_level (n : nat) : FraudRisk :=
  match n with
  | 0 => LOW
  | 1 => MEDIUM
  | _ => HIGH
  end.

(** One of the tokens [toks] stands at the front of [s]; the number of
    positions of [s] at which one does. *)
Definition hit (toks : list jsstring) (s : jsstring) : bool :=
  existsb (fun t => is_prefix t s) toks.

Fixpoint hits (toks : list jsstring) (s : jsstring) : nat :=
  (if hit toks s then 1 else 0) +
  match s with
  | [] => 0
  | _ :: s' => hits toks s'
  end.

(** A bracketed token: an opening bracket, then no further one. *)
Definition bracketed (t : jsstring) : bool :=
  match t with
  | c :: u => N.eqb c 91 && forallb (fun x => negb (N.eqb x 91)) u
  | [] => false
  end.

(** *** Primary impact *)

Definition impact_label_cell : jsstring := lit "| Primary Impact Zone | ".

(** The text of a cell: what precedes the first closing [ |], which must
    come before the end of the line. *)
Fixpoint cell_text (s : jsstring) : option jsstring :=
  if is_prefix (lit " |") s then Some []
  else
    match s with
    | [] => None
    | c :: s' =>
        if is_line_terminator c then None
        else option_map (cons c) (cell_text s')
    end.

(** A row [| Primary Impact Zone | <text> |] at the front of [s]. *)
Definition impact_row_here (s : jsstring) : option jsstring :=
  if is_prefix impact_label_cell s
  then cell_text (skipn (length impact_label_cell) s) else None.

Definition primary_impact_row (d : jsstring) : option jsstring :=
  first_match impact_row_here d.

Definition impact_label (row : option jsstring) : jsstring :=
  match row with
  | Some text => trim text
  | None => lit "Unknown"
  end.

(** *** The two patterns, read as shapes of the document *)

Definition on_one_line (m : jsstring) : bool :=
  forallb (fun c => negb (is_line_terminator c)) m.

(** [d] holds the word Severity, then [m] on the same line, then the
    digits [ds], then [/10]. *)
Definition severity_pattern (d a m ds b : jsstring) : Prop :=
  d = a ++ lit "Severity" ++ m ++ ds ++ lit "/10" ++ b /\
  on_one_line m = true /\ ds <> [] /\ forallb is_digit ds = true.

(** [d] holds the row label, then the text [t] on the same line, then the
    closing [ |]. *)
Definition impact_row_pattern (d a t b : jsstring) : Prop :=
  d = a ++ impact_label_cell ++ t ++ lit " |" ++ b /\ on_one_line t = true.

(** *** The impact-side hint *)

Inductive side : Type := RightSide | LeftSide | Rear | Front.

Definition keywords (sd : side) : list jsstring :=
  match sd with
  | RightSide => [lit "right"; lit "passenger"; lit "rh"]
  | LeftSide => [lit "left"; lit "driver"; lit "lh"]
  | Rear => [lit "rear"; lit "back"]
  | Front => [lit "front"]
  end.

Definition mentions (descLower : jsstring) (sd : side) : bool :=
  existsb (includes descLower) (keywords sd).

(** The first side, in the order right, left, rear, front, one of whose
    keywords the lowercased description contains. *)
Definition resolved_side (descLower : jsstring) : option side :=
  find (mentions descLower) [RightSide; LeftSide; Rear; Front].

Definition instruction_for (sd : option side) : jsstring :=
  match sd with
  | Some RightSide => lit "EXTREMELY IMPORTANT: The damage is on the RIGHT side. You MUST render the RED impact vector on the RIGHT SIDE of the image canvas."
  | Some LeftSide => lit "EXTREMELY IMPORTANT: The damage is on the LEFT side. You MUST render the RED impact vector on the LEFT SIDE of the image canvas."
  | Some Rear => lit "EXTREMELY IMPORTANT: The damage is on the REAR. You MUST render the RED impact vector at the BOTTOM of the image canvas."
  | Some Front => lit "EXTREMELY IMPORTANT: The damage is on the FRONT. You MUST render the RED impact vector at the TOP of the image canvas."
  | None => []
  end.

End Spec.

(* ===================================================================== *)
(** ** Direct forms of the sub-matchers, used in the proofs               *)
(* ===================================================================== *)

Module Direct.
Import JS.

(** [.*?] followed by [k]. *)
Fixpoint lazy_any (k : continuation) (s : jsstring) (caps : captures)
  : option (jsstring * captures) :=
  match k s caps with
  | Some m => Some m
  | None =>
      match s with
      | [] => None
      | x :: s' => if is_line_terminator x then None else lazy_any k s' caps
      end
  end.

(** The final continuation of a match: it accepts what is left. *)
Definition accept : continuation := fun s caps => Some (s, caps).

(** The fields of the metrics, each as its own expression. *)
Definition severity_field (markdown : jsstring) : number :=
  match match_first markdown Extractor.severity_re with
  | Some m => parseInt10 (to_string (capture 1 (m_groups m)))
  | None => Num 0
  end.

Definition impact_field (markdown : jsstring) : jsstring :=
  match match_first markdown Extractor.impact_re with
  | Some m =>
      match capture 1 (m_groups m) with
      | Some g => trim g
      | None => lit "Unknown"
      end
  | None => lit "Unknown"
  end.

Definition count_field (markdown : jsstring) (r : regex) : nat :=
  length (or_empty (match_global markdown r)).

End Direct.

(* ===================================================================== *)
(** ** Concrete reports, inputs and hosts                                 *)
(* ===================================================================== *)

Module Fixtures.
Import JS Types GeminiService.
Local Open Scope string_scope.
Local Open Scope list_scope.

(** The report of the end-to-end scenario: the three sections the system
    instruction asks for, with one component to replace, two to repair and
    one inconsistent finding. *)
Definition stub_report : jsstring :=
  text_lines
    ["# Incident Physics & Vector Analysis";
     "| Metric | Analysis |";
     "| :--- | :--- |";
     "| Primary Impact Zone | Rear Bumper Reinforcement |";
     "| Force Vector (Clock) | 6 o'clock direct impact |";
     "| Impact Severity (1-10) | 8/10 |";
     "| Kinetic Energy Transfer | Absorbed by crash box, transferred to rails |";
     EmptyString;
     "# Fraud & Consistency Audit";
     "*Analyze if the physical evidence matches the story.*";
     EmptyString;
     "| Check | Finding | Status |";
     "| :--- | :--- | :--- |";
     "| Story Consistency | Struck at 20mph, yet the rails are kinked | [INCONSISTENT] |";
     "| Pre-existing Damage | No rust or filler visible | [CLEAR] |";
     "| Artificial Enhancement | No tool marks | [CLEAR] |";
     "| Physics Check | Damage height matches a bumper strike | [PASS] |";
     EmptyString;
     "# Repair vs. Replace Strategy";
     "*Technical decision making based on OEM guidelines.*";
     EmptyString;
     "| Component | Action | Technical Justification |";
     "| :--- | :--- | :--- |";
     "| Rear Bumper Reinforcement | [REPLACE] | Kinked beyond repair limits |";
     "| Rear Bumper Cover | [REPAIR] | Minor cosmetic scrape only |";
     "| Trunk Lid | [REPAIR] | Accessible for PDR |";
     "| Rear Sensors | [INSPECT] | Verify sensor calibration |";
     EmptyString].

Definition stub_input : AccidentInput :=
  {| vehicle := {| year := lit "2022"; make := lit "Toyota";
                   model := lit "Camry" |};
     description := lit "rear-ended at 20mph";
     context := [];
     images := [] |}.

(** A report whose heading names the severity and whose score stands on
    a later line. *)
Definition heading_report : jsstring :=
  text_lines
    ["## Damage Severity";
     "| Rating | 8/10 |"].

(** A report that rates the impact above the scale. *)
Definition overrated_report : jsstring :=
  text_lines
    ["| Primary Impact Zone | Rear Bumper |";
     "| Impact Severity (1-10) | 12/10 |"].

(** A report with two primary-impact rows. *)
Definition two_row_report : jsstring :=
  text_lines
    ["| Primary Impact Zone | Hood |";
     "| Primary Impact Zone | Rear Bumper |"].

Definition rear_bumper_row : jsstring :=
  lit "| Primary Impact Zone | Rear Bumper |".

(** A report whose summary table holds the rear-bumper row. *)
Definition rear_bumper_prefix : jsstring :=
  text_lines
    ["# Incident Physics & Vector Analysis";
     "| Metric | Analysis |";
     "| :--- | :--- |";
     EmptyString].

Definition rear_bumper_suffix : jsstring :=
  text_lines
    [EmptyString;
     "| Impact Severity (1-10) | 4/10 |";
     EmptyString].

(** A lowercasing that covers the Latin capitals A to Z. *)
Definition ascii_lower (s : jsstring) : jsstring :=
  map (fun c => if ((65 <=? c) && (c <=? 90))%N then (c + 32)%N else c) s.

Definition some_key : option jsstring := Some (lit "k-123").

(** A service that answers every request with an empty text. *)
Definition empty_text_service
  : GenerateContentParameters -> promise GenerateContentResponse :=
  fun _ => inr {| response_text := Some []; candidates := None |}.

(** A service that writes the stubbed report and fails on the diagram. *)
Definition report_only_service
  : GenerateContentParameters -> promise GenerateContentResponse :=
  fun request =>
    if jsstring_eqb (gc_model request) (lit "gemini-2.5-flash")
    then inr {| response_text := Some stub_report; candidates := None |}
    else inl (ServiceFailure (lit "quota exceeded")).

Definition jpeg_part : Part :=
  {| inlineData := Some {| mimeType := Some (lit "image/jpeg");
                           data := Some (lit "/9j/4AAQSkZJRg==") |};
     text := None |}.

Definition png_part : Part :=
  {| inlineData := Some {| mimeType := Some (lit "image/png");
                           data := Some (lit "iVBORw0KGgo=") |};
     text := None |}.

Definition caption_part : Part :=
  {| inlineData := None; text := Some (lit "Here is the diagram.") |}.

(** A service that writes the stubbed report and draws a diagram, which
    it labels as a JPEG. *)
Definition drawing_service
  : GenerateContentParameters -> promise GenerateContentResponse :=
  fun request =>
    if jsstring_eqb (gc_model request) (lit "gemini-2.5-flash")
    then inr {| response_text := Some stub_report; candidates := None |}
    else inr {| response_text := Some (lit "Here is the diagram.");
                candidates :=
                  Some [{| content :=
                             Some {| parts := Some [caption_part; jpeg_part;
                                                    png_part] |} |}] |}.

(** The stubbed report with one more audit row, which fails. *)
Definition extra_fail_report : jsstring :=
  stub_report
  ++ text_lines ["| Paint Check | Overspray on the seals | [FAIL] |";
                 EmptyString].

(** The stubbed report after a row that names another impact zone. *)
Definition earlier_row_report : jsstring :=
  text_lines ["| Primary Impact Zone | Hood |"; EmptyString] ++ stub_report.

(** The stubbed report after a line that rates a severity of its own. *)
Definition earlier_severity_report : jsstring :=
  text_lines ["Severity of the earlier claim: 3/10"; EmptyString]
  ++ stub_report.

Definition side_swipe_input : AccidentInput :=
  {| vehicle := {| year := lit "2019"; make := lit "Honda";
                   model := lit "Civic" |};
     description := lit "Struck on the RIGHT REAR quarter panel";
     context := lit "Wet road";
     images := [] |}.

End Fixtures.

(* ===================================================================== *)
(** ** Vehicle identification ([geminiService.ts],
       [identifyVehicleFromImage])                                        *)
(* ===================================================================== *)

Module VehicleIdentification.
Import JS Types GeminiService.
Local Open Scope string_scope.
Local Open Scope list_scope.

(** The structured request: a JSON response with a schema. *)
Inductive schema_type : Type := STRING | OBJECT.

Record Schema : Type := {
  schema_kind : schema_type;
  schema_properties : list (jsstring * schema_type);
  schema_required : list jsstring
}.

Record StructuredConfig : Type := {
  responseMimeType : jsstring;
  responseSchema : Schema
}.

Record StructuredParameters : Type := {
  sp_model : jsstring;
  sp_parts : list Part;
  sp_config : StructuredConfig
}.

(** What the function promises to return. *)
Record IdentifiedVehicle : Type := {
  id_year : jsstring;
  id_make : jsstring;
  id_model : jsstring;
  id_description : jsstring
}.

Definition identify_prompt : jsstring :=
  quoted (text_lines
    ["Analyze these images for an automotive damage report. ";
     "          1. Identify the Vehicle Year (approximate), Make, and Model.";
     "          2. Provide a detailed, technical description of the visible damage across all images.";
     "          ";
     "          CRITICAL INSTRUCTION: Explicitly state `Right Side (Passenger)` or `Left Side (Driver)` in the description based on the damage location relative to the vehicle's forward motion.";
     "          ";
     "          Example: `Severe impact to Right (Passenger) Front Fender...`";
     "          "]).

Definition identify_request (allParts : list Part) : StructuredParameters :=
  {| sp_model := lit "gemini-2.5-flash";
     sp_parts := allParts;
     sp_config :=
       {| responseMimeType := lit "application/json";
          responseSchema :=
            {| schema_kind := OBJECT;
               schema_properties :=
                 [(lit "year", STRING); (lit "make", STRING);
                  (lit "model", STRING); (lit "description", STRING)];
               schema_required :=
                 [lit "year"; lit "make"; lit "model"; lit "description"] |}
       |} |}.

Section Host.

(** The credential, the remote service answering a structured request
    (the same [ai.models.generateContent], called with a response schema),
    and the runtime's [JSON.parse] at the promised type. *)
Variable API_KEY : option jsstring.
Variable generateStructured :
  StructuredParameters -> promise GenerateContentResponse.
Variable JSON_parse : jsstring -> promise IdentifiedVehicle.

Definition identifyVehicleFromImage (images : list File)
  : promise IdentifiedVehicle :=
  if negb (truthy API_KEY) then inl (Error (lit "API Key is missing"))
  else
    (await imageParts <- encode_images images;
     let allParts :=
       imageParts ++ [{| inlineData := None; text := Some identify_prompt |}] in
     await response <- generateStructured (identify_request allParts);
     let text := response_text response in
     if negb (truthy text) then inl (Error (lit "No response from AI"))
     else JSON_parse (to_string text))%promise.

End Host.

End VehicleIdentification.

(* ===================================================================== *)
(** ** The intake form ([InputForm])                                      *)
(* ===================================================================== *)

Module InputForm.
Import JS Types GeminiService VehicleIdentification.

(** The [useState] cells of the form. *)
Record Form : Type := {
  f_year : jsstring;
  f_make : jsstring;
  f_model : jsstring;
  f_description : jsstring;
  f_context : jsstring;
  f_images : list File;
  f_imagePreviews : list jsstring;
  f_isIdentifying : bool
}.

Definition initial_form : Form :=
  {| f_year := []; f_make := []; f_model := []; f_description := [];
     f_context := []; f_images := []; f_imagePreviews := [];
     f_isIdentifying := false |}.

Definition setYear (v : jsstring) (s : Form) : Form :=
  {| f_year := v; f_make := f_make s; f_model := f_model s;
     f_description := f_description s; f_context := f_context s;
     f_images := f_images s; f_imagePreviews := f_imagePreviews s;
     f_isIdentifying := f_isIdentifying s |}.
Definition setMake (v : jsstring) (s : Form) : Form :=
  {| f_year := f_year s; f_make := v; f_model := f_model s;
     f_description := f_description s; f_context := f_context s;
     f_images := f_images s; f_imagePreviews := f_imagePreviews s;
     f_isIdentifying := f_isIdentifying s |}.
Definition setModel (v : jsstring) (s : Form) : Form :=
  {| f_year := f_year s; f_make := f_make s; f_model := v;
     f_description := f_description s; f_context := f_context s;
     f_images := f_images s; f_imagePreviews := f_imagePreviews s;
     f_isIdentifying := f_isIdentifying s |}.
Definition setDescription (v : jsstring) (s : Form) : Form :=
  {| f_year := f_year s; f_make := f_make s; f_model := f_model s;
     f_description := v; f_context := f_context s;
     f_images := f_images s; f_imagePreviews := f_imagePreviews s;
     f_isIdentifying := f_isIdentifying s |}.
Definition setImages (v : list File) (s : Form) : Form :=
  {| f_year := f_year s; f_make := f_make s; f_model := f_model s;
     f_description := f_description s; f_context := f_context s;
     f_images := v; f_imagePreviews := f_imagePreviews s;
     f_isIdentifying := f_isIdentifying s |}.
Definition setImagePreviews (v : list jsstring) (s : Form) : Form :=
  {| f_year := f_year s; f_make := f_make s; f_model := f_model s;
     f_description := f_description s; f_context := f_context s;
     f_images := f_images s; f_imagePreviews := v;
     f_isIdentifying := f_isIdentifying s |}.
Definition setIsIdentifying (v : bool) (s : Form) : Form :=
  {| f_year := f_year s; f_make := f_make s; f_model := f_model s;
     f_description := f_description s; f_context := f_context s;
     f_images := f_images s; f_imagePreviews := f_imagePreviews s;
     f_isIdentifying := v |}.

(** [a.splice(index, 1)] on a copy of [a], for an index counted from the
    front: the element at [index] is dropped, if there is one. *)
Definition splice1 {A : Type} (index : nat) (a : list A) : list A :=
  firstn index a ++ skipn (S index) a.

Section Host.

(** The browser's store of object URLs, and the identification service. *)
Variable Browser : Type.
Variable createObjectURL : File -> Browser -> jsstring * Browser.
Variable revokeObjectURL : jsstring -> Browser -> Browser.
Variable API_KEY : option jsstring.
Variable generateStructured :
  StructuredParameters -> promise GenerateContentResponse.
Variable JSON_parse : jsstring -> promise IdentifiedVehicle.

(** [newFiles.map(file => URL.createObjectURL(file))] *)
Fixpoint create_previews (files : list File) (b : Browser)
  : list jsstring * Browser :=
  match files with
  | [] => ([], b)
  | file :: rest =>
      let '(url, b1) := createObjectURL file b in
      let '(urls, b2) := create_previews rest b1 in
      (url :: urls, b2)
  end.

(** [files] is [e.target.files]: a file list or null. *)
Definition handleImageChange (files : option (list File))
           (st : Form * Browser) : Form * Browser :=
  let '(s, b) := st in
  match files with
  | Some newFiles =>
      if 0 <? length newFiles then
        let s1 := setImages (f_images s ++ newFiles) s in
        let '(newPreviews, b1) := create_previews newFiles b in
        (setImagePreviews (f_imagePreviews s1 ++ newPreviews) s1, b1)
      else st
  | None => st
  end.

Definition removeImage (index : nat) (st : Form * Browser) : Form * Browser :=
  let '(s, b) := st in
  let newImages := splice1 index (f_images s) in
  let s1 := setImages newImages s in
  let b1 := revokeObjectURL (to_string (nth_error (f_imagePreviews s) index)) b in
  let newPreviews := splice1 index (f_imagePreviews s) in
  (setImagePreviews newPreviews s1, b1).

(** The whole of [handleAutoDetect], when nothing else happens to the
    form before the identification has settled. *)
Definition handleAutoDetect (s : Form) : Form :=
  if length (f_images s) =? 0 then s
  else
    let s1 := setIsIdentifying true s in
    let s2 :=
      match identifyVehicleFromImage API_KEY generateStructured JSON_parse
                                     (f_images s) with
      | inr result =>
          setDescription (id_description result)
            (setModel (id_model result)
               (setMake (id_make result) (setYear (id_year result) s1)))
      | inl error => s1
      end in
    setIsIdentifying false s2.

(** The input that [handleSubmit] hands to [onSubmit]. *)
Definition handleSubmit (s : Form) : AccidentInput :=
  {| vehicle := {| year := f_year s; make := f_make s; model := f_model s |};
     description := f_description s;
     context := f_context s;
     images := f_images s |}.

(** [handleAutoDetect] up to its [await]: nothing when there is no
    image; otherwise the flag is raised and the identification of the
    images held at that moment is under way. *)
Definition handleAutoDetect_begin (s : Form)
  : option (Form * promise IdentifiedVehicle) :=
  if length (f_images s) =? 0 then None
  else
    Some (setIsIdentifying true s,
          identifyVehicleFromImage API_KEY generateStructured JSON_parse
                                   (f_images s)).

(** [handleAutoDetect] from its [await] on, applied to the cells as they
    are when the identification settles. *)
Definition handleAutoDetect_settle (outcome : promise IdentifiedVehicle)
           (s : Form) : Form :=
  let s2 :=
    match outcome with
    | inr result =>
        setDescription (id_description result)
          (setModel (id_model result)
             (setMake (id_make result) (setYear (id_year result) s)))
    | inl error => s
    end in
  setIsIdentifying false s2.





End Host.

End InputForm.

(* ===================================================================== *)
(** ** The report view ([ReportView.tsx])                                 *)
(* ===================================================================== *)

Module ReportView.
Import JS Types.

Inductive card_type : Type := danger | warning | success | neutral.

(** [x >= n] and [x > n] for a Number [x] and an integer literal [n]. *)
Definition number_ge (x : number) (n : Z) : bool :=
  match x with
  | Num z => (n <=? z)%Z
  | Infinity false => true
  | _ => false
  end.

Definition number_gt (x : number) (n : Z) : bool :=
  match x with
  | Num z => (n <? z)%Z
  | Infinity false => true
  | _ => false
  end.

Definition getFraudType (metrics : AnalysisMetrics) : card_type :=
  match fraudRisk metrics with
  | HIGH => danger
  | MEDIUM => warning
  | _ => success
  end.

Definition getSeverityType (metrics : AnalysisMetrics) : card_type :=
  if number_ge (severityScore metrics) 8 then danger
  else if number_ge (severityScore metrics) 5 then warning
  else neutral.

(** The subtexts of the severity and fraud cards. *)
Definition severity_subtext (metrics : AnalysisMetrics) : jsstring :=
  if number_gt (severityScore metrics) 7 then lit "Structural Compromise"
  else lit "Cosmetic / Bolt-On".

Definition fraud_subtext (metrics : AnalysisMetrics) : jsstring :=
  match fraudRisk metrics with
  | HIGH => lit "Requires Manual Review"
  | _ => lit "Pattern Consistent"
  end.

(** The value of the primary-impact card. *)
Definition impact_value (metrics : AnalysisMetrics) : jsstring :=
  if 20 <? length (primaryImpact metrics)
  then firstn 18 (primaryImpact metrics) ++ lit "..."
  else if truthy (Some (primaryImpact metrics)) then primaryImpact metrics
       else lit "Undetermined".

(** [content.replace(/[\[\]]/g, '')]: every bracket is dropped. *)
Definition strip_brackets (content : jsstring) : jsstring :=
  filter (fun c => negb (N.eqb c 91 || N.eqb c 93)) content.

(** What the [td] renderer makes of a cell, by its text. *)
Inductive cell : Type :=
| ReplaceBadge
| ActionBadge (label : jsstring)
| ClearBadge (label : jsstring)
| AlertBadge (label : jsstring)
| PlainCell.

Definition td (content : jsstring) : cell :=
  if includes content (lit "[REPLACE]") then ReplaceBadge
  else if includes content (lit "[INSPECT]") || includes content (lit "[REPAIR]")
  then ActionBadge (strip_brackets content)
  else if includes content (lit "[CONSISTENT]") || includes content (lit "[PASS]")
          || includes content (lit "[CLEAR]")
  then ClearBadge (strip_brackets content)
  else if includes content (lit "[INCONSISTENT]") || includes content (lit "[FAIL]")
          || includes content (lit "[SUSPICIOUS]")
          || includes content (lit "[DETECTED]")
  then AlertBadge (strip_brackets content)
  else PlainCell.

End ReportView.

(* ===================================================================== *)
(** ** Shapes of requests, files and labels, used to state properties     *)
(* ===================================================================== *)

Module Shapes.
Import JS Types GeminiService VehicleIdentification.

(** A file the reader can deliver. *)
Definition readable (file : File) : bool :=
  match dataURL file with
  | Some _ => true
  | None => false
  end.

(** The inline part that stands for an image in a request. *)
Definition image_part (image : File) : Part :=
  {| inlineData :=
       Some {| mimeType := Some (type image);
               data := match dataURL image with
                       | Some result => nth_error (split_comma result) 1
                       | None => None
                       end |};
     text := None |}.

Definition text_part (prompt : jsstring) : Part :=
  {| inlineData := None; text := Some prompt |}.

(** The text of a response, or the placeholder of [analyzeAccident]. *)
Definition placeholder : jsstring := lit "Analysis failed to generate content.".

Definition text_or_placeholder (response : GenerateContentResponse)
  : jsstring :=
  if truthy (response_text response) then to_string (response_text response)
  else placeholder.

Definition failure_message : jsstring :=
  lit "Failed to analyze the accident data. Please verify your network connection.".

Definition comma_free (s : jsstring) : bool :=
  forallb (fun c => negb (N.eqb c 44)) s.

(** No white space at either end, and no line terminator anywhere. *)
Definition leading_space (s : jsstring) : bool :=
  match s with
  | c :: _ => is_white_space c
  | [] => false
  end.

Definition trailing_space (s : jsstring) : bool := leading_space (rev s).

Definition single_line (s : jsstring) : bool :=
  forallb (fun c => negb (is_line_terminator c)) s.

(** Two reports, one after the other, on separate lines. *)
Definition stacked (a b : jsstring) : jsstring := a ++ 10%N :: b.

Definition line_feed_free (s : jsstring) : bool :=
  forallb (fun c => negb (N.eqb c 10)) s.

(** The Latin letters A to Z and a to z. *)
Definition is_ascii_letter (c : code_unit) : bool :=
  (((65 <=? c) && (c <=? 90)) || ((97 <=? c) && (c <=? 122)))%N.

(** What the runtime's [toLowerCase] does to a word of Latin letters,
    wherever it stands: the word is replaced by its lowercase form; what
    precedes and follows it is mapped independently of it. *)
Definition lowercases_ascii (toLowerCase : jsstring -> jsstring) : Prop :=
  forall a w b,
    forallb is_ascii_letter w = true ->
    exists a' b',
      toLowerCase (a ++ w ++ b) = a' ++ Fixtures.ascii_lower w ++ b'.

End Shapes.

(* ===================================================================== *)
(** ** More concrete files, services and browsers                        *)
(* ===================================================================== *)

Module MoreFixtures.
Import JS Types GeminiService VehicleIdentification InputForm Fixtures.
Local Open Scope string_scope.
Local Open Scope list_scope.

Definition photo : File :=
  {| type := lit "image/jpeg";
     dataURL := Some (lit "data:image/jpeg;base64,/9j/4AAQSkZJRg==") |}.

Definition second_photo : File :=
  {| type := lit "image/png";
     dataURL := Some (lit "data:image/png;base64,iVBORw0KGgo=") |}.

Definition damaged_photo : File :=
  {| type := lit "image/jpeg"; dataURL := None |}.

(** An empty file, for which a reader delivers a URL without a comma. *)
Definition empty_photo : File :=
  {| type := lit "image/png"; dataURL := Some (lit "data:") |}.

Definition photo_input : AccidentInput :=
  {| vehicle := {| year := lit "2019"; make := lit "Honda";
                   model := lit "Civic" |};
     description := lit "Struck on the RIGHT REAR quarter panel";
     context := [];
     images := [photo; second_photo] |}.

Definition damaged_input : AccidentInput :=
  {| vehicle := {| year := lit "2019"; make := lit "Honda";
                   model := lit "Civic" |};
     description := lit "Struck on the RIGHT REAR quarter panel";
     context := lit "Wet road";
     images := [photo; damaged_photo] |}.

(** A service that is down. *)
Definition failing_service
  : GenerateContentParameters -> promise GenerateContentResponse :=
  fun _ => inl (ServiceFailure (lit "503")).

(** A structured service that names the vehicle, and a parser for its
    one answer. *)
Definition civic_json : jsstring :=
  quoted (lit "{`year`:`2019`,`make`:`Honda`,`model`:`Civic`,`description`:`Right (Passenger) rear quarter panel crushed`}").

Definition naming_service
  : StructuredParameters -> promise GenerateContentResponse :=
  fun _ => inr {| response_text := Some civic_json; candidates := None |}.

Definition silent_service
  : StructuredParameters -> promise GenerateContentResponse :=
  fun _ => inr {| response_text := None; candidates := None |}.

Definition civic : IdentifiedVehicle :=
  {| id_year := lit "2019"; id_make := lit "Honda"; id_model := lit "Civic";
     id_description := lit "Right (Passenger) rear quarter panel crushed" |}.

Definition parse_civic : jsstring -> promise IdentifiedVehicle :=
  fun s => if jsstring_eqb s civic_json then inr civic
           else inl (Error (lit "Unexpected token")).

(** A browser that numbers its object URLs and remembers the live ones. *)
Definition counting_browser : Type := (nat * list jsstring)%type.

Definition counting_create (file : File) (b : counting_browser)
  : jsstring * counting_browser :=
  let url := lit "blob:" ++ nat_to_string (fst b) in
  (url, (S (fst b), url :: snd b)).

Definition counting_revoke (url : jsstring) (b : counting_browser)
  : counting_browser :=
  (fst b, filter (fun u => negb (jsstring_eqb u url)) (snd b)).

Definition filled_form : Form :=
  {| f_year := lit "2018"; f_make := lit "Ford"; f_model := lit "Focus";
     f_description := lit "Scrape along the left door";
     f_context := lit "Car park";
     f_images := [photo; second_photo];
     f_imagePreviews := [lit "blob:0"; lit "blob:1"];
     f_isIdentifying := false |}.



End MoreFixtures.

(* ===================================================================== *)
(** ** Facts about strings and the matcher                                *)
(* ===================================================================== *)

Module MatcherFacts.
Import JS Spec Direct.

Lemma is_prefix_split : forall p s,
  is_prefix p s = true -> s = p ++ skipn (length p) s.
Proof.
  induction p as [|x p IH]; intros [|y s] H; simpl in *; try discriminate; auto.
  apply andb_prop in H. destruct H as [Hxy Hp].
  apply N.eqb_eq in Hxy. subst y. f_equal. now apply IH.
Qed.

Lemma is_prefix_app : forall p s, is_prefix p (p ++ s) = true.
Proof.
  induction p as [|x p IH]; intros s; simpl; auto.
  now rewrite N.eqb_refl, IH.
Qed.

Lemma includes_unfold : forall s p,
  includes s p = is_prefix p s || match s with
                                  | [] => false
                                  | _ :: s' => includes s' p
                                  end.
Proof. intros [|c s] p; reflexivity. Qed.

Lemma includes_front : forall p b, includes (p ++ b) p = true.
Proof. intros p b. now rewrite includes_unfold, is_prefix_app. Qed.

Lemma includes_skip : forall a s p,
  includes s p = true -> includes (a ++ s) p = true.
Proof.
  induction a as [|c a IH]; intros s p H; [exact H|].
  cbn [app]. rewrite includes_unfold, (IH _ _ H). apply orb_true_r.
Qed.

Lemma includes_middle : forall a p b, includes (a ++ p ++ b) p = true.
Proof. intros a p b. apply includes_skip, includes_front. Qed.

(** A text that includes a pattern holds it between two parts. *)
Lemma includes_decompose : forall s p,
  includes s p = true -> exists a b, s = a ++ p ++ b.
Proof.
  induction s as [|c s IH]; intros p H; rewrite includes_unfold in H;
    apply orb_prop in H; destruct H as [H|H]; try discriminate.
  - exists [], (skipn (length p) []). now apply is_prefix_split.
  - exists [], (skipn (length p) (c :: s)). now apply is_prefix_split.
  - destruct (IH _ H) as (a & b & E). exists (c :: a), b. now rewrite E.
Qed.

Lemma is_prefix_length : forall p s,
  is_prefix p s = true -> length p <= length s.
Proof.
  induction p as [|x p IH]; intros [|y s] H; simpl in *; try discriminate; try lia.
  apply andb_prop in H. destruct H as [_ Hp]. apply IH in Hp. lia.
Qed.

Lemma consumed_app : forall a b, consumed (a ++ b) b = a.
Proof.
  intros a b. unfold consumed. rewrite length_app.
  replace (length a + length b - length b) with (length a) by lia.
  rewrite firstn_app, Nat.sub_diag, firstn_all. simpl. now rewrite app_nil_r.
Qed.

Lemma consumed_skipn : forall p s,
  is_prefix p s = true -> consumed s (skipn (length p) s) = p.
Proof.
  intros p s H. pose proof (is_prefix_split _ _ H) as E.
  rewrite E at 1. apply consumed_app.
Qed.

Lemma digits_prefix_split : forall s,
  s = digits_prefix s ++ skipn (length (digits_prefix s)) s.
Proof.
  induction s as [|c s IH]; simpl; auto.
  destruct (is_digit c); simpl; auto. now f_equal.
Qed.

Lemma digits_prefix_all : forall s, forallb is_digit (digits_prefix s) = true.
Proof.
  induction s as [|c s IH]; simpl; auto.
  destruct (is_digit c) eqn:E; simpl; auto. now rewrite E.
Qed.

Lemma digits_prefix_id : forall ds,
  forallb is_digit ds = true -> digits_prefix ds = ds.
Proof.
  induction ds as [|c ds IH]; simpl; auto.
  intros H. apply andb_prop in H. destruct H as [Hc Hds].
  rewrite Hc. f_equal. now apply IH.
Qed.

Lemma is_digit_range : forall c, is_digit c = true -> (48 <= c <= 57)%N.
Proof.
  intros c H. unfold is_digit in H. apply andb_prop in H.
  destruct H as [H1 H2]. apply N.leb_le in H1, H2. lia.
Qed.

Lemma digit_not_white_space : forall c,
  is_digit c = true -> is_white_space c = false.
Proof.
  intros c H. apply is_digit_range in H.
  unfold is_white_space, is_line_terminator.
  repeat match goal with
  | |- context [N.eqb c ?n] =>
      replace (N.eqb c n) with false by (symmetry; apply N.eqb_neq; lia)
  end.
  replace (8192 <=? c)%N with false by (symmetry; apply N.leb_gt; lia).
  reflexivity.
Qed.

(** [parseInt] of a non-empty run of digits is the rounded value of the
    run. *)
Lemma parseInt10_digits : forall ds,
  ds <> [] -> forallb is_digit ds = true ->
  parseInt10 ds = round_to_double (decimal_value ds).
Proof.
  intros [|c ds] Hne Hall; [congruence|].
  pose proof Hall as Hall'. simpl in Hall'. apply andb_prop in Hall'.
  destruct Hall' as [Hc _].
  unfold parseInt10. simpl trimStart.
  rewrite (digit_not_white_space _ Hc).
  pose proof (is_digit_range _ Hc) as R.
  replace (N.eqb c 45) with false by (symmetry; apply N.eqb_neq; lia).
  replace (N.eqb c 43) with false by (symmetry; apply N.eqb_neq; lia).
  rewrite (digits_prefix_id _ Hall). reflexivity.
Qed.

(** *** The matcher on the constructs of the source's patterns *)

Lemma exec_Str : forall p s caps k,
  exec (Str p) s caps k =
  if is_prefix p s then k (skipn (length p) s) caps else None.
Proof.
  induction p as [|x p IH]; intros s caps k; simpl.
  - reflexivity.
  - destruct s as [|y s]; auto.
    rewrite (N.eqb_sym y x). destruct (N.eqb x y); simpl; auto.
Qed.

Lemma star_lazy_any : forall k s fuel caps,
  length s < fuel ->
  star_loop (exec AnyChar) false k fuel s caps = lazy_any k s caps.
Proof.
  intros k. induction s as [|x s IH]; intros fuel caps Hf;
    (destruct fuel as [|fuel]; [lia|]); simpl.
  - destruct (k [] caps); reflexivity.
  - destruct (k (x :: s) caps); auto.
    destruct (is_line_terminator x); auto.
    replace (length s <? S (length s)) with true
      by (symmetry; apply Nat.ltb_lt; lia).
    apply IH. simpl in Hf. lia.
Qed.

Lemma star_greedy_digits : forall k s fuel caps,
  length s < fuel ->
  (forall y t c, is_digit y = true -> k (y :: t) c = None) ->
  star_loop (exec DigitClass) true k fuel s caps =
  k (skipn (length (digits_prefix s)) s) caps.
Proof.
  intros k. induction s as [|y s IH]; intros fuel caps Hf Hk;
    (destruct fuel as [|fuel]; [lia|]); simpl.
  - reflexivity.
  - destruct (is_digit y) eqn:Hy; simpl; auto.
    replace (length s <? S (length s)) with true
      by (symmetry; apply Nat.ltb_lt; lia).
    rewrite IH by (simpl in Hf; auto; lia).
    rewrite (Hk y s caps Hy).
    destruct (k (skipn (length (digits_prefix s)) s) caps); reflexivity.
Qed.

Lemma exec_Seq : forall r1 r2 s caps k,
  exec (Seq r1 r2) s caps k = exec r1 s caps (fun s1 c1 => exec r2 s1 c1 k).
Proof. reflexivity. Qed.

Lemma exec_Star : forall g r s caps k,
  exec (Star g r) s caps k = star_loop (exec r) g k (S (length s)) s caps.
Proof. reflexivity. Qed.

Lemma exec_Group : forall n r s caps k,
  exec (Group n r) s caps k =
  exec r s caps (fun s' caps' => k s' ((n, consumed s s') :: caps')).
Proof. reflexivity. Qed.

Lemma exec_at_groups : forall r s,
  option_map m_groups (exec_at r s) = option_map snd (exec r s [] accept).
Proof.
  intros r s. unfold exec_at, accept.
  destruct (exec r s [] (fun s' caps => Some (s', caps))) as [[rest caps]|];
    reflexivity.
Qed.

(** The search of [RegExpBuiltinExec] is a leftmost first match. *)
Lemma regexp_exec_first :
  forall (A : Type) (r : regex) (proj : match_result -> A)
         (g : jsstring -> option A),
    (forall s, option_map proj (exec_at r s) = g s) ->
    forall d, option_map proj (regexp_exec r d) = first_match g d.
Proof.
  intros A r proj g H. induction d as [|c d IH]; cbn [regexp_exec first_match];
    rewrite <- (H _); destruct (exec_at r _); cbn [option_map]; auto.
Qed.

Lemma first_match_some :
  forall (A : Type) (f : jsstring -> option A) d a,
    first_match f d = Some a ->
    exists pre s, d = pre ++ s /\ f s = Some a.
Proof.
  intros A f. induction d as [|c d IH]; intros a H; cbn [first_match] in H.
  - destruct (f []) eqn:E; [|discriminate]. exists [], []. split; auto.
    congruence.
  - destruct (f (c :: d)) eqn:E.
    + exists [], (c :: d). split; auto. congruence.
    + destruct (IH _ H) as (pre & s & Hd & Hs). exists (c :: pre), s.
      split; auto. simpl. congruence.
Qed.

Lemma first_match_map :
  forall (A B : Type) (h : A -> B) (f : jsstring -> option A) d,
    first_match (fun s => option_map h (f s)) d = option_map h (first_match f d).
Proof.
  intros A B h f. induction d as [|c d IH]; cbn [first_match];
    destruct (f _); cbn [option_map]; auto.
Qed.

Lemma first_match_skip :
  forall (A : Type) (f : jsstring -> option A) pre s,
    matches_before f (length pre) (pre ++ s) = false ->
    first_match f (pre ++ s) = first_match f s.
Proof.
  intros A f. induction pre as [|c pre IH]; intros s H; auto.
  cbn [length app matches_before] in H. cbn [app first_match].
  destruct (f (c :: pre ++ s)); [discriminate|]. now apply IH.
Qed.

End MatcherFacts.

Module SeverityFacts.
Import JS Types Extractor Spec Direct MatcherFacts.

Lemma slash_not_digit : forall y t,
  is_digit y = true -> is_prefix (lit "/10") (y :: t) = false.
Proof.
  intros y t H. apply is_digit_range in H.
  change (lit "/10") with (47%N :: lit "10"). cbn [is_prefix].
  replace (N.eqb 47 y) with false by (symmetry; apply N.eqb_neq; lia).
  reflexivity.
Qed.

(** [(\d+)\/10] at the front of [s]: the longest run of digits, when
    [/10] follows it. *)
Lemma exec_score : forall s caps,
  option_map snd
    (exec (Seq (Group 1 (Plus true DigitClass)) (Str (lit "/10"))) s caps accept)
  = option_map (fun ds => (1, ds) :: caps) (score_here s).
Proof.
  intros s caps. unfold Plus. cbn [exec].
  destruct s as [|x sa]; [reflexivity|].
  unfold score_here. cbn [digits_prefix].
  destruct (is_digit x) eqn:Hx; [|reflexivity].
  rewrite star_greedy_digits; [|lia|].
  - rewrite exec_Str. cbn [length skipn].
    destruct (is_prefix (lit "/10") (skipn (length (digits_prefix sa)) sa));
      [|reflexivity].
    unfold accept. cbn [option_map snd]. do 2 f_equal. f_equal.
    rewrite (digits_prefix_split sa) at 1.
    change (x :: digits_prefix sa ++ skipn (length (digits_prefix sa)) sa)
      with ((x :: digits_prefix sa) ++ skipn (length (digits_prefix sa)) sa).
    apply consumed_app.
  - intros y t c Hy. rewrite exec_Str. now rewrite slash_not_digit.
Qed.

Lemma lazy_any_score : forall s,
  option_map snd
    (lazy_any (fun s2 c2 =>
                 exec (Seq (Group 1 (Plus true DigitClass)) (Str (lit "/10")))
                      s2 c2 accept) s [])
  = option_map (fun ds => [(1, ds)]) (score_on_line s).
Proof.
  induction s as [|x s IH]; cbn [lazy_any score_on_line].
  - pose proof (exec_score [] []) as E.
    destruct (exec _ [] [] accept), (score_here []);
      cbn [option_map] in *; congruence.
  - pose proof (exec_score (x :: s) []) as E.
    destruct (exec _ (x :: s) [] accept), (score_here (x :: s));
      cbn [option_map] in *; try congruence.
    destruct (is_line_terminator x); auto.
Qed.

Lemma exec_severity_here : forall s,
  option_map m_groups (exec_at severity_re s)
  = option_map (fun ds => [(1, ds)]) (severity_here score_on_line s).
Proof.
  intros s. rewrite exec_at_groups. unfold severity_re, severity_here.
  rewrite exec_Seq, exec_Str.
  destruct (is_prefix (lit "Severity") s); [|reflexivity].
  rewrite exec_Seq, exec_Star, star_lazy_any by lia.
  apply lazy_any_score.
Qed.

Lemma score_here_digits : forall s ds,
  score_here s = Some ds -> ds <> [] /\ forallb is_digit ds = true.
Proof.
  intros s ds H. unfold score_here in H.
  pose proof (digits_prefix_all s) as Hall.
  destruct (digits_prefix s) as [|c ds'] eqn:E; [discriminate|].
  destruct (is_prefix _ _); [|discriminate].
  inversion H; subst. split; [discriminate|assumption].
Qed.

Lemma score_on_line_digits : forall s ds,
  score_on_line s = Some ds -> ds <> [] /\ forallb is_digit ds = true.
Proof.
  induction s as [|c s IH]; intros ds H; cbn [score_on_line] in H.
  - destruct (score_here []) eqn:E; [|discriminate].
    inversion H; subst. eapply score_here_digits; eauto.
  - destruct (score_here (c :: s)) eqn:E.
    + inversion H; subst. eapply score_here_digits; eauto.
    + destruct (is_line_terminator c); [discriminate|]. now apply IH.
Qed.

Lemma severity_run_on_line_digits : forall d ds,
  severity_run_on_line d = Some ds -> ds <> [] /\ forallb is_digit ds = true.
Proof.
  intros d ds H. apply first_match_some in H.
  destruct H as (pre & s & _ & Hs). unfold severity_here in Hs.
  destruct (is_prefix _ s); [|discriminate].
  eapply score_on_line_digits; eauto.
Qed.

(** The score the extractor assigns, in terms of the text alone. *)
Lemma severity_field_spec : forall d,
  severity_field d = score_of (severity_run_on_line d).
Proof.
  intros d. unfold severity_field, match_first.
  pose proof (regexp_exec_first severity_re m_groups _ exec_severity_here d) as E.
  rewrite first_match_map in E. fold (severity_run_on_line d) in E.
  destruct (regexp_exec severity_re d) as [m|],
           (severity_run_on_line d) as [ds|] eqn:R;
    cbn [option_map] in E; try discriminate; [|reflexivity].
  inversion E as [G]. rewrite G. cbn [capture Nat.eqb to_string score_of].
  destruct (severity_run_on_line_digits _ R) as [Hne Hall].
  now apply parseInt10_digits.
Qed.

End SeverityFacts.

Module ImpactFacts.
Import JS Types Extractor Spec Direct MatcherFacts.

(** [(.*?) \|] at the front of [s], where [pre] has been consumed by the
    group already. *)
Lemma lazy_any_cell : forall s pre,
  option_map snd
    (lazy_any (fun s' c' =>
                 exec (Str (lit " |")) s' ((1, consumed (pre ++ s) s') :: c')
                      accept) s [])
  = option_map (fun t => [(1, pre ++ t)]) (cell_text s).
Proof.
  induction s as [|x s IH]; intros pre; cbn [lazy_any cell_text];
    rewrite exec_Str.
  - destruct (is_prefix (lit " |") []); [|reflexivity].
    unfold accept. cbn [option_map snd]. now rewrite consumed_app, app_nil_r.
  - destruct (is_prefix (lit " |") (x :: s)).
    + unfold accept. cbn [option_map snd]. now rewrite consumed_app, app_nil_r.
    + destruct (is_line_terminator x); [reflexivity|].
      replace (pre ++ x :: s) with ((pre ++ [x]) ++ s)
        by (rewrite <- app_assoc; reflexivity).
      rewrite IH. destruct (cell_text s); cbn [option_map]; auto.
      now rewrite <- app_assoc.
Qed.

Lemma exec_impact_here : forall s,
  option_map m_groups (exec_at impact_re s)
  = option_map (fun t => [(1, t)]) (impact_row_here s).
Proof.
  intros s. rewrite exec_at_groups. unfold impact_re, impact_row_here.
  rewrite exec_Seq, exec_Str. fold impact_label_cell.
  destruct (is_prefix impact_label_cell s); [|reflexivity].
  rewrite exec_Seq, exec_Group, exec_Star, star_lazy_any by lia.
  apply (lazy_any_cell (skipn (length impact_label_cell) s) []).
Qed.

(** The label the extractor assigns, in terms of the text alone. *)
Lemma impact_field_spec : forall d,
  impact_field d = impact_label (primary_impact_row d).
Proof.
  intros d. unfold impact_field, match_first.
  pose proof (regexp_exec_first impact_re m_groups _ exec_impact_here d) as E.
  rewrite first_match_map in E. fold (primary_impact_row d) in E.
  destruct (regexp_exec impact_re d) as [m|],
           (primary_impact_row d) as [t|];
    cbn [option_map] in E; try discriminate; [|reflexivity].
  inversion E as [G]. rewrite G. reflexivity.
Qed.

End ImpactFacts.

Module CountFacts.
Import JS Types Extractor Spec Direct MatcherFacts.

Lemma exec_at_Str : forall t s,
  exec_at (Str t) s =
  if is_prefix t s then Some (MatchResult t [] (skipn (length t) s)) else None.
Proof.
  intros t s. unfold exec_at. rewrite exec_Str.
  destruct (is_prefix t s) eqn:E; [|reflexivity].
  now rewrite (consumed_skipn _ _ E).
Qed.

Lemma exec_at_Alt : forall r1 r2 s,
  exec_at (Alt r1 r2) s =
  match exec_at r1 s with
  | Some m => Some m
  | None => exec_at r2 s
  end.
Proof.
  intros r1 r2 s. unfold exec_at. cbn [exec].
  destruct (exec r1 s [] _) as [[rest caps]|]; reflexivity.
Qed.

Lemma hit_find : forall toks s,
  hit toks s = match find (fun t => is_prefix t s) toks with
               | Some _ => true
               | None => false
               end.
Proof.
  induction toks as [|t toks IH]; intros s; cbn [hit existsb find]; auto.
  destruct (is_prefix t s); auto. apply IH.
Qed.

Lemma find_prefix : forall toks s t,
  find (fun t => is_prefix t s) toks = Some t ->
  In t toks /\ is_prefix t s = true.
Proof. intros toks s t H. now apply find_some in H. Qed.

Lemma hit_not_bracket : forall toks c s,
  forallb bracketed toks = true -> N.eqb c 91 = false ->
  hit toks (c :: s) = false.
Proof.
  induction toks as [|t toks IH]; intros c s Hb Hc; cbn [hit existsb]; auto.
  cbn [forallb] in Hb. apply andb_prop in Hb. destruct Hb as [Ht Hb].
  rewrite (IH c s Hb Hc : existsb _ toks = false), orb_false_r.
  destruct t as [|a u]; [discriminate|]. cbn [bracketed] in Ht.
  apply andb_prop in Ht. destruct Ht as [Ha _]. apply N.eqb_eq in Ha. subst a.
  cbn [is_prefix]. now rewrite N.eqb_sym, Hc.
Qed.

Lemma hits_skip : forall toks u rest,
  forallb bracketed toks = true ->
  forallb (fun x => negb (N.eqb x 91)) u = true ->
  hits toks (u ++ rest) = hits toks rest.
Proof.
  intros toks. induction u as [|c u IH]; intros rest Hb Hu; auto.
  cbn [forallb] in Hu. apply andb_prop in Hu. destruct Hu as [Hc Hu].
  apply negb_true_iff in Hc. cbn [app hits].
  now rewrite (hit_not_bracket _ _ _ Hb Hc), IH.
Qed.

Section TokenCount.

Variable toks : list jsstring.
Variable r : regex.

(** [r] matches exactly the tokens, the first listed one first. *)
Hypothesis r_spec : forall s,
  exec_at r s =
  match find (fun t => is_prefix t s) toks with
  | Some t => Some (MatchResult t [] (skipn (length t) s))
  | None => None
  end.
Hypothesis toks_bracketed : forallb bracketed toks = true.

Lemma regexp_exec_hits_none : forall s,
  regexp_exec r s = None -> hits toks s = 0.
Proof.
  induction s as [|c s IH]; cbn [regexp_exec hits]; rewrite r_spec, hit_find;
    destruct (find _ toks); try discriminate; auto.
Qed.

Lemma regexp_exec_hits_some : forall s m,
  regexp_exec r s = Some m ->
  m_text m <> [] /\ length (m_rest m) < length s /\
  hits toks s = S (hits toks (m_rest m)).
Proof.
  assert (Here : forall s t,
            find (fun t => is_prefix t s) toks = Some t ->
            t <> [] /\ length (skipn (length t) s) < length s /\
            hits toks s = S (hits toks (skipn (length t) s))).
  { intros s t F. destruct (find_prefix _ _ F) as [Hin Hp].
    pose proof (proj1 (forallb_forall _ _) toks_bracketed _ Hin) as Hbr.
    destruct t as [|a u]; [discriminate|]. cbn [bracketed] in Hbr.
    apply andb_prop in Hbr. destruct Hbr as [_ Hu].
    pose proof (is_prefix_split _ _ Hp) as E.
    assert (Hh : hit toks s = true) by (now rewrite hit_find, F).
    remember (skipn (length (a :: u)) s) as rest eqn:R. clear R F Hp.
    subst s. split; [discriminate|]. split.
    - rewrite length_app. cbn [length]. lia.
    - cbn [app hits] in *. now rewrite Hh, hits_skip. }
  induction s as [|c s IH]; intros m H; cbn [regexp_exec] in H;
    rewrite r_spec in H; destruct (find _ toks) as [t|] eqn:F.
  - inversion H; subst. now apply Here.
  - discriminate.
  - inversion H; subst. now apply Here.
  - destruct (IH _ H) as (H1 & H2 & H3). split; auto. split.
    + cbn [length]. lia.
    + cbn [hits]. now rewrite hit_find, F, H3.
Qed.

(** The global match finds every occurrence: its rounds are enough. *)
Lemma match_from_hits : forall fuel s,
  length s < fuel -> length (match_from fuel r s) = hits toks s.
Proof.
  induction fuel as [|fuel IH]; intros s Hf; [lia|].
  cbn [match_from]. destruct (regexp_exec r s) as [m|] eqn:E.
  - destruct (regexp_exec_hits_some _ E) as (H1 & H2 & H3).
    destruct (m_text m) as [|x t]; [congruence|].
    cbn [length]. rewrite IH by lia. now rewrite H3.
  - now rewrite (regexp_exec_hits_none _ E).
Qed.

Lemma count_field_hits : forall d, count_field d r = hits toks d.
Proof.
  intros d. unfold count_field, match_global.
  rewrite <- (match_from_hits (fuel := S (length d)) d) by lia.
  destruct (match_from (S (length d)) r d); reflexivity.
Qed.

End TokenCount.

Lemma hits_single : forall t d, hits [t] d = occurrences t d.
Proof.
  intros t. induction d as [|c d IH]; cbn [hits occurrences hit existsb];
    rewrite orb_false_r; auto.
Qed.

(** At most one risk token stands at any position. *)
Lemma risk_hit_sum : forall s,
  (if hit risk_tokens s then 1 else 0) =
  (if is_prefix (lit "[SUSPICIOUS]") s then 1 else 0)
  + (if is_prefix (lit "[INCONSISTENT]") s then 1 else 0)
  + (if is_prefix (lit "[DETECTED]") s then 1 else 0)
  + (if is_prefix (lit "[FAIL]") s then 1 else 0).
Proof.
  intros s. unfold hit, risk_tokens. cbn [existsb].
  change (lit "[SUSPICIOUS]") with (91 :: 83 :: lit "USPICIOUS]")%N.
  change (lit "[INCONSISTENT]") with (91 :: 73 :: lit "NCONSISTENT]")%N.
  change (lit "[DETECTED]") with (91 :: 68 :: lit "ETECTED]")%N.
  change (lit "[FAIL]") with (91 :: 70 :: lit "AIL]")%N.
  destruct s as [|c0 [|c1 s]]; cbn [is_prefix].
  - reflexivity.
  - destruct (N.eqb 91 c0); reflexivity.
  - destruct (N.eqb 91 c0); [|reflexivity]. cbn [andb].
    destruct (N.eqb_spec 83 c1), (N.eqb_spec 73 c1), (N.eqb_spec 68 c1),
             (N.eqb_spec 70 c1); subst; try discriminate; cbn [andb orb];
      repeat match goal with
             | |- context [is_prefix ?p s] => destruct (is_prefix p s)
             end; reflexivity.
Qed.

Lemma hits_risk_tokens : forall d, hits risk_tokens d = risk_token_count d.
Proof.
  unfold risk_token_count.
  induction d as [|c d IH]; cbn [hits occurrences]; rewrite risk_hit_sum; lia.
Qed.

Lemma suspicious_re_spec : forall s,
  exec_at suspicious_re s =
  match find (fun t => is_prefix t s) risk_tokens with
  | Some t => Some (MatchResult t [] (skipn (length t) s))
  | None => None
  end.
Proof.
  intros s. unfold suspicious_re, risk_tokens.
  rewrite !exec_at_Alt, !exec_at_Str. cbn [find].
  repeat match goal with
         | |- context [is_prefix ?p s] => destruct (is_prefix p s)
         end; reflexivity.
Qed.

Lemma single_re_spec : forall t s,
  exec_at (Str t) s =
  match find (fun t => is_prefix t s) [t] with
  | Some t => Some (MatchResult t [] (skipn (length t) s))
  | None => None
  end.
Proof.
  intros t s. rewrite exec_at_Str. cbn [find]. destruct (is_prefix t s); auto.
Qed.

(** The three counts of the extractor, in terms of the text alone. *)
Lemma suspicious_count_spec : forall d,
  count_field d suspicious_re = risk_token_count d.
Proof.
  intros d.
  rewrite (count_field_hits risk_tokens suspicious_re suspicious_re_spec)
    by reflexivity.
  apply hits_risk_tokens.
Qed.

Lemma replace_count_spec : forall d,
  count_field d replace_re = occurrences (lit "[REPLACE]") d.
Proof.
  intros d. unfold replace_re.
  rewrite (count_field_hits [lit "[REPLACE]"] _ (single_re_spec _))
    by reflexivity.
  apply hits_single.
Qed.

Lemma repair_count_spec : forall d,
  count_field d repair_re = occurrences (lit "[REPAIR]") d.
Proof.
  intros d. unfold repair_re.
  rewrite (count_field_hits [lit "[REPAIR]"] _ (single_re_spec _))
    by reflexivity.
  apply hits_single.
Qed.

End CountFacts.

Module ExtractorFacts.
Import JS Types Extractor Spec Direct MatcherFacts.

(** The extractor, field by field. *)
Lemma parseAnalysisMetrics_fields : forall d,
  parseAnalysisMetrics d =
  {| severityScore := severity_field d;
     fraudRisk := risk_of_count (count_field d suspicious_re);
     replaceCount := Num (Z.of_nat (count_field d replace_re));
     repairCount := Num (Z.of_nat (count_field d repair_re));
     primaryImpact := impact_field d |}.
Proof.
  intros d.
  unfold parseAnalysisMetrics, try_catch, try_block, seq, extract_severity,
    extract_fraud, extract_counts, extract_impact, seq, severity_field,
    impact_field, count_field, array_length.
  destruct (match_first d severity_re) as [ms|];
    destruct (match_first d impact_re) as [mi|];
    try destruct (capture 1 (m_groups mi)); reflexivity.
Qed.

(** The [try] block always completes: the handler is never entered. *)
Lemma try_block_completes : forall d m, snd (try_block d m) = Normal.
Proof.
  intros d m.
  unfold try_block, seq, extract_severity, extract_fraud, extract_counts,
    extract_impact, seq, match_first.
  pose proof (regexp_exec_first impact_re m_groups _
                ImpactFacts.exec_impact_here d) as E.
  rewrite first_match_map in E.
  destruct (regexp_exec severity_re d) as [ms|];
    destruct (regexp_exec impact_re d) as [mi|];
    cbn [assign skip fst snd]; try reflexivity;
    destruct (first_match impact_row_here d); cbn [option_map] in E;
    try discriminate; inversion E as [G]; rewrite G; reflexivity.
Qed.

Lemma risk_of_count_level : forall n, risk_of_count n = risk_level n.
Proof. intros [|[|n]]; reflexivity. Qed.

End ExtractorFacts.

Module SpecFacts.
Import JS Types Spec MatcherFacts.

Lemma skipn_app_exact : forall (p s : jsstring), skipn (length p) (p ++ s) = s.
Proof. induction p as [|x p IH]; intros s; simpl; auto. Qed.

Lemma first_match_found :
  forall (A : Type) (f : jsstring -> option A) a s,
    f s <> None -> first_match f (a ++ s) <> None.
Proof.
  intros A f. induction a as [|c a IH]; intros s H; cbn [app].
  - destruct s; cbn [first_match]; destruct (f _); congruence.
  - cbn [first_match]. destruct (f (c :: a ++ s)); [discriminate|]. now apply IH.
Qed.

Lemma digits_prefix_before_slash : forall ds b,
  forallb is_digit ds = true ->
  digits_prefix (ds ++ lit "/10" ++ b) = ds.
Proof.
  induction ds as [|c ds IH]; intros b H.
  - reflexivity.
  - cbn [forallb] in H. apply andb_prop in H. destruct H as [Hc Hds].
    cbn [app digits_prefix]. rewrite Hc. f_equal. now apply IH.
Qed.

Lemma score_here_found : forall ds b,
  ds <> [] -> forallb is_digit ds = true ->
  score_here (ds ++ lit "/10" ++ b) = Some ds.
Proof.
  intros ds b Hne Hall. unfold score_here.
  rewrite digits_prefix_before_slash by assumption.
  destruct ds as [|c ds]; [congruence|].
  now rewrite skipn_app_exact, is_prefix_app.
Qed.

Lemma score_here_shape : forall s ds,
  score_here s = Some ds ->
  exists b, s = ds ++ lit "/10" ++ b /\ ds <> [] /\ forallb is_digit ds = true.
Proof.
  intros s ds H. destruct (SeverityFacts.score_here_digits _ H) as [Hne Hall].
  unfold score_here in H. pose proof (digits_prefix_split s) as E.
  destruct (digits_prefix s) as [|c ds'] eqn:D; [discriminate|].
  destruct (is_prefix (lit "/10") (skipn (length (c :: ds')) s)) eqn:P;
    [|discriminate].
  inversion H; subst ds. apply is_prefix_split in P.
  eexists. split; [|split; assumption].
  rewrite E at 1. f_equal. exact P.
Qed.

Lemma score_on_line_shape : forall s ds,
  score_on_line s = Some ds ->
  exists m b, s = m ++ ds ++ lit "/10" ++ b /\ on_one_line m = true /\
              ds <> [] /\ forallb is_digit ds = true.
Proof.
  induction s as [|c s IH]; intros ds H; cbn [score_on_line] in H.
  - destruct (score_here []) eqn:E; [|discriminate]. inversion H; subst.
    destruct (score_here_shape _ E) as (b & Hs & Hd). exists [], b. now split.
  - destruct (score_here (c :: s)) eqn:E.
    + inversion H; subst.
      destruct (score_here_shape _ E) as (b & Hs & Hd). exists [], b. now split.
    + destruct (is_line_terminator c) eqn:L; [discriminate|].
      destruct (IH _ H) as (m & b & Hs & Hm & Hd).
      exists (c :: m), b. subst s. split; [reflexivity|]. split; [|exact Hd].
      cbn [on_one_line forallb]. now rewrite L.
Qed.

Lemma score_on_line_found : forall m ds b,
  on_one_line m = true -> ds <> [] -> forallb is_digit ds = true ->
  score_on_line (m ++ ds ++ lit "/10" ++ b) <> None.
Proof.
  induction m as [|c m IH]; intros ds b Hm Hne Hall.
  - cbn [app]. pose proof (score_here_found b Hne Hall) as E.
    destruct ds as [|x ds]; [congruence|].
    cbn [app] in *. cbn [score_on_line]. now rewrite E.
  - cbn [on_one_line forallb] in Hm. apply andb_prop in Hm.
    destruct Hm as [Hc Hm]. apply negb_true_iff in Hc.
    cbn [app score_on_line]. destruct (score_here _); [discriminate|].
    rewrite Hc. now apply IH.
Qed.

(** What the severity search finds has the shape of the pattern, and it
    finds something whenever the document has that shape somewhere. *)
Lemma severity_run_on_line_shape : forall d ds,
  severity_run_on_line d = Some ds ->
  exists a m b, severity_pattern d a m ds b.
Proof.
  intros d ds H. apply first_match_some in H.
  destruct H as (a & s & Hd & Hs). unfold severity_here in Hs.
  destruct (is_prefix (lit "Severity") s) eqn:P; [|discriminate].
  apply score_on_line_shape in Hs. destruct Hs as (m & b & Hs & Hm & Hds).
  apply is_prefix_split in P. exists a, m, b. split; [|now split].
  rewrite Hd, P. now rewrite Hs.
Qed.

Lemma severity_run_on_line_found : forall d a m ds b,
  severity_pattern d a m ds b -> severity_run_on_line d <> None.
Proof.
  intros d a m ds b (Hd & Hm & Hne & Hall). subst d.
  apply first_match_found. unfold severity_here.
  rewrite is_prefix_app, skipn_app_exact. now apply score_on_line_found.
Qed.

Lemma cell_text_shape : forall s t,
  cell_text s = Some t ->
  exists b, s = t ++ lit " |" ++ b /\ on_one_line t = true.
Proof.
  induction s as [|c s IH]; intros t H; cbn [cell_text] in H.
  - destruct (is_prefix (lit " |") []) eqn:P; [|discriminate].
    discriminate P.
  - destruct (is_prefix (lit " |") (c :: s)) eqn:P.
    + inversion H; subst t. apply is_prefix_split in P.
      eexists. split; [exact P|reflexivity].
    + destruct (is_line_terminator c) eqn:L; [discriminate|].
      destruct (cell_text s) as [t'|]; [|discriminate].
      inversion H; subst t. destruct (IH _ eq_refl) as (b & Hs & Hl).
      exists b. subst s. split; [reflexivity|].
      cbn [on_one_line forallb]. now rewrite L.
Qed.

Lemma cell_text_found : forall t b,
  on_one_line t = true -> cell_text (t ++ lit " |" ++ b) <> None.
Proof.
  induction t as [|c t IH]; intros b Hl.
  - discriminate.
  - cbn [on_one_line forallb] in Hl. apply andb_prop in Hl.
    destruct Hl as [Hc Hl]. apply negb_true_iff in Hc.
    cbn [app cell_text]. destruct (is_prefix _ _); [discriminate|].
    rewrite Hc. specialize (IH b Hl).
    destruct (cell_text (t ++ lit " |" ++ b)); [discriminate|congruence].
Qed.

(** The same for the primary-impact row. *)
Lemma primary_impact_row_shape : forall d t,
  primary_impact_row d = Some t -> exists a b, impact_row_pattern d a t b.
Proof.
  intros d t H. apply first_match_some in H.
  destruct H as (a & s & Hd & Hs). unfold impact_row_here in Hs.
  destruct (is_prefix impact_label_cell s) eqn:P; [|discriminate].
  apply cell_text_shape in Hs. destruct Hs as (b & Hs & Hl).
  apply is_prefix_split in P. exists a, b. split; [|assumption].
  rewrite Hd, P. now rewrite Hs.
Qed.

Lemma primary_impact_row_found : forall d a t b,
  impact_row_pattern d a t b -> primary_impact_row d <> None.
Proof.
  intros d a t b (Hd & Hl). subst d.
  apply first_match_found. unfold impact_row_here.
  rewrite is_prefix_app, skipn_app_exact. now apply cell_text_found.
Qed.

(** Below 2^53 the parsed score is the value of the digit run itself. *)
Lemma score_of_exact : forall ds,
  (decimal_value ds < 2 ^ 53)%Z ->
  score_of (Some ds) = Num (decimal_value ds).
Proof.
  intros ds H. cbn [score_of]. unfold round_to_double.
  apply Z.ltb_lt in H. now rewrite H.
Qed.

End SpecFacts.

(* ===================================================================== *)
(** ** The metrics extractor: properties                                  *)
(* ===================================================================== *)

Import JS Types Extractor GeminiService App Spec Direct Fixtures.
Import MatcherFacts ExtractorFacts.

(** C1, as stated, fails.  Each of three reports holds the row
    [| Primary Impact Zone | Rear Bumper Reinforcement |], the text
    [Impact Severity (1-10) | 8/10], exactly one [[REPLACE]], exactly two
    [[REPAIR]] and exactly one [[INCONSISTENT]], yet the metrics are not
    those of the scenario: a further [[FAIL]] row raises the fraud risk to
    HIGH, an earlier primary-impact row makes the primary impact Hood, and
    an earlier line that rates a severity makes the score 3. *)
Lemma scenario_conditions_counterexample :
  (forall d,
      In d [extra_fail_report; earlier_row_report; earlier_severity_report] ->
      includes d (lit "| Primary Impact Zone | Rear Bumper Reinforcement |")
      = true /\
      includes d (lit "Impact Severity (1-10) | 8/10") = true /\
      occurrences (lit "[REPLACE]") d = 1 /\
      occurrences (lit "[REPAIR]") d = 2 /\
      occurrences (lit "[INCONSISTENT]") d = 1 /\
      parseAnalysisMetrics d
      <> {| severityScore := Num 8; fraudRisk := MEDIUM;
            replaceCount := Num 1; repairCount := Num 2;
            primaryImpact := lit "Rear Bumper Reinforcement" |}) /\
  fraudRisk (parseAnalysisMetrics extra_fail_report) = HIGH /\
  primaryImpact (parseAnalysisMetrics earlier_row_report) = lit "Hood" /\
  severityScore (parseAnalysisMetrics earlier_severity_report) = Num 3.
Proof.
  split; [|repeat split; vm_compute; reflexivity].
  intros d [E|[E|[E|[]]]]; subst d;
    repeat split; try (vm_compute; reflexivity);
    intros H;
    [ apply (f_equal fraudRisk) in H
    | apply (f_equal primaryImpact) in H
    | apply (f_equal severityScore) in H ];
    vm_compute in H; discriminate H.
Qed.

(** C1, amended. For every analysis document [d] whose first
    primary-impact row is [| Primary Impact Zone | Rear Bumper
    Reinforcement |], whose first same-line severity pattern is the one of
    the text [Impact Severity (1-10) | 8/10], and which holds exactly one
    [[REPLACE]], exactly two [[REPAIR]], exactly one [[INCONSISTENT]] and
    no [[SUSPICIOUS]], [[DETECTED]] or [[FAIL]], [parseAnalysisMetrics]
    returns exactly severity 8, fraud risk MEDIUM, one replacement, two
    repairs and the primary impact Rear Bumper Reinforcement. *)
Theorem scenario_metrics : forall d pre1 post1 pre2 post2,
  d = pre1 ++ lit "| Primary Impact Zone | Rear Bumper Reinforcement |" ++ post1 ->
  matches_before impact_row_here (length pre1) d = false ->
  d = pre2 ++ lit "Impact Severity (1-10) | 8/10" ++ post2 ->
  matches_before (severity_here score_on_line) (length pre2 + 7) d = false ->
  occurrences (lit "[REPLACE]") d = 1 ->
  occurrences (lit "[REPAIR]") d = 2 ->
  occurrences (lit "[INCONSISTENT]") d = 1 ->
  occurrences (lit "[SUSPICIOUS]") d = 0 ->
  occurrences (lit "[DETECTED]") d = 0 ->
  occurrences (lit "[FAIL]") d = 0 ->
  parseAnalysisMetrics d =
  {| severityScore := Num 8; fraudRisk := MEDIUM; replaceCount := Num 1;
     repairCount := Num 2;
     primaryImpact := lit "Rear Bumper Reinforcement" |}.
Proof.
  intros d pre1 post1 pre2 post2 Hrow Hrow1 Hsev Hsev1 Hreplace Hrepair
    Hinc Hsus Hdet Hfail.
  assert (Hrisk : risk_token_count d = 1).
  { unfold risk_token_count. rewrite Hinc, Hsus, Hdet, Hfail. reflexivity. }
  assert (Sev : severity_run_on_line d = Some (lit "8")).
  { clear - Hsev Hsev1. subst d. unfold severity_run_on_line.
    change (lit "Impact Severity (1-10) | 8/10")
      with (lit "Impact " ++ lit "Severity (1-10) | 8/10") in *.
    rewrite <- (app_assoc (lit "Impact ")), app_assoc in *.
    replace (length pre2 + 7) with (length (pre2 ++ lit "Impact ")) in Hsev1
      by (rewrite length_app; reflexivity).
    rewrite first_match_skip by assumption. reflexivity. }
  assert (Row : primary_impact_row d = Some (lit "Rear Bumper Reinforcement")).
  { clear - Hrow Hrow1. subst d. unfold primary_impact_row.
    rewrite first_match_skip by assumption. reflexivity. }
  rewrite parseAnalysisMetrics_fields.
  rewrite SeverityFacts.severity_field_spec, ImpactFacts.impact_field_spec,
    CountFacts.suspicious_count_spec, CountFacts.replace_count_spec,
    CountFacts.repair_count_spec, Hreplace, Hrepair, Hrisk, Sev, Row.
  reflexivity.
Qed.

(** The stubbed report of the end-to-end scenario is such a document: its
    row starts at index 75 and its severity text at index 180. *)
Lemma scenario_metrics_witness :
  parseAnalysisMetrics stub_report =
  {| severityScore := Num 8; fraudRisk := MEDIUM; replaceCount := Num 1;
     repairCount := Num 2;
     primaryImpact := lit "Rear Bumper Reinforcement" |}.
Proof.
  apply (@scenario_metrics stub_report
           (firstn 75 stub_report) (skipn (75 + 51) stub_report)
           (firstn 180 stub_report) (skipn (180 + 29) stub_report));
    vm_compute; reflexivity.
Defined.

(** C2, as stated, fails: in a report whose heading holds the word
    Severity and whose next line holds [8/10], the word is followed, across
    intervening characters, by a digit run and [/10], yet the extractor
    does not look past the end of the line and leaves the score at 0. *)
Lemma severity_across_lines_counterexample :
  severity_run_any heading_report = Some (lit "8") /\
  score_of (severity_run_any heading_report) = Num 8 /\
  severityScore (parseAnalysisMetrics heading_report) = Num 0 /\
  severityScore (parseAnalysisMetrics heading_report)
  <> score_of (severity_run_any heading_report).
Proof. repeat split; vm_compute; try reflexivity; discriminate. Qed.

(** C2, amended. For every Markdown document [d], the severity score is
    the parsed digit run of the first occurrence in [d] of the word
    Severity followed non-greedily, across intervening characters other
    than line terminators, by a sequence of digits and the suffix [/10];
    when no such pattern occurs in [d], the score is 0. *)
Theorem severity_score_on_line : forall d,
  severityScore (parseAnalysisMetrics d) = score_of (severity_run_on_line d) /\
  ((forall a m ds b, ~ severity_pattern d a m ds b) ->
   severityScore (parseAnalysisMetrics d) = Num 0).
Proof.
  intros d.
  assert (E : severityScore (parseAnalysisMetrics d)
              = score_of (severity_run_on_line d)).
  { rewrite parseAnalysisMetrics_fields. cbn [severityScore].
    apply SeverityFacts.severity_field_spec. }
  split; [exact E|]. intros Hnone. rewrite E.
  destruct (severity_run_on_line d) as [ds|] eqn:R; [|reflexivity].
  destruct (SpecFacts.severity_run_on_line_shape _ R) as (a & m & b & Hp).
  destruct (Hnone a m ds b Hp).
Qed.

Lemma severity_score_on_line_witness :
  severityScore (parseAnalysisMetrics heading_report) = Num 0.
Proof.
  apply (proj2 (severity_score_on_line heading_report)).
  intros a m ds b Hp. apply SpecFacts.severity_run_on_line_found in Hp.
  apply Hp. vm_compute. reflexivity.
Defined.

(** C3. For every Markdown document [d], the fraud risk is obtained by
    counting all occurrences in [d] of the tokens [[SUSPICIOUS]],
    [[INCONSISTENT]], [[DETECTED]] and [[FAIL]], summed together: none
    gives LOW, exactly one MEDIUM, two or more HIGH; CRITICAL is never
    produced. *)
Theorem fraud_risk_by_token_count : forall d,
  fraudRisk (parseAnalysisMetrics d) = risk_level (risk_token_count d) /\
  fraudRisk (parseAnalysisMetrics d) <> CRITICAL.
Proof.
  intros d. rewrite parseAnalysisMetrics_fields. cbn [fraudRisk].
  rewrite CountFacts.suspicious_count_spec, risk_of_count_level.
  split; [reflexivity|].
  destruct (risk_token_count d) as [|[|n]]; discriminate.
Qed.

(** C4, as stated, fails: a report can contain the row
    [| Primary Impact Zone | Rear Bumper |] and still get another label,
    because an earlier row matches first. *)
Lemma rear_bumper_substring_counterexample :
  includes two_row_report rear_bumper_row = true /\
  primaryImpact (parseAnalysisMetrics two_row_report) = lit "Hood" /\
  primaryImpact (parseAnalysisMetrics two_row_report) <> lit "Rear Bumper".
Proof. repeat split; vm_compute; try reflexivity; discriminate. Qed.

(** C4, amended. For every Markdown document [d], the primary impact is
    the captured text, trimmed of surrounding white space, of the first
    row of [d] matching [| Primary Impact Zone | <text> |], and the text
    Unknown when no row matches; in particular, when [d] contains the row
    [| Primary Impact Zone | Rear Bumper |] and the pattern matches at no
    earlier position of [d], the primary impact is Rear Bumper. *)
Theorem primary_impact_first_row : forall d,
  primaryImpact (parseAnalysisMetrics d) = impact_label (primary_impact_row d)
  /\
  ((forall a t b, ~ impact_row_pattern d a t b) ->
   primaryImpact (parseAnalysisMetrics d) = lit "Unknown")
  /\
  (forall pre post,
      d = pre ++ rear_bumper_row ++ post ->
      matches_before impact_row_here (length pre) d = false ->
      primaryImpact (parseAnalysisMetrics d) = lit "Rear Bumper").
Proof.
  intros d.
  assert (E : primaryImpact (parseAnalysisMetrics d)
              = impact_label (primary_impact_row d)).
  { rewrite parseAnalysisMetrics_fields. cbn [primaryImpact].
    apply ImpactFacts.impact_field_spec. }
  split; [exact E|]. split.
  - intros Hnone. rewrite E.
    destruct (primary_impact_row d) as [t|] eqn:R; [|reflexivity].
    destruct (SpecFacts.primary_impact_row_shape _ R) as (a & b & Hp).
    destruct (Hnone a t b Hp).
  - intros pre post Hd Hbefore. rewrite E. subst d. unfold primary_impact_row.
    rewrite first_match_skip by assumption. reflexivity.
Qed.

Lemma primary_impact_first_row_witness :
  primaryImpact
    (parseAnalysisMetrics
       (rear_bumper_prefix ++ rear_bumper_row ++ rear_bumper_suffix))
  = lit "Rear Bumper" /\
  primaryImpact (parseAnalysisMetrics heading_report) = lit "Unknown".
Proof.
  split.
  - apply (proj2 (proj2 (primary_impact_first_row
                    (rear_bumper_prefix ++ rear_bumper_row ++ rear_bumper_suffix)))
                 rear_bumper_prefix rear_bumper_suffix).
    + reflexivity.
    + vm_compute. reflexivity.
  - apply (proj1 (proj2 (primary_impact_first_row heading_report))).
    intros a t b Hp. apply SpecFacts.primary_impact_row_found in Hp.
    apply Hp. vm_compute. reflexivity.
Defined.

(** C7, at a report that rates the impact 12/10: the extractor stores 12,
    above the range 0 to 10 that the claim and the comment on
    [severityScore] give. *)
Theorem severity_above_scale :
  severityScore (parseAnalysisMetrics overrated_report) = Num 12 /\
  (10 < 12)%Z.
Proof. split; [vm_compute; reflexivity | lia]. Qed.

(** The other ranges of C7 hold for every document. *)
Lemma counts_and_risk_in_range : forall d,
  (exists n, replaceCount (parseAnalysisMetrics d) = Num (Z.of_nat n)) /\
  (exists n, repairCount (parseAnalysisMetrics d) = Num (Z.of_nat n)) /\
  (fraudRisk (parseAnalysisMetrics d) = LOW \/
   fraudRisk (parseAnalysisMetrics d) = MEDIUM \/
   fraudRisk (parseAnalysisMetrics d) = HIGH).
Proof.
  intros d. rewrite parseAnalysisMetrics_fields.
  cbn [replaceCount repairCount fraudRisk]. repeat split; eauto.
  rewrite risk_of_count_level.
  destruct (count_field d suspicious_re) as [|[|n]]; cbn [risk_level]; auto.
Qed.

(* ===================================================================== *)
(** ** The gateway and the orchestration: properties                      *)
(* ===================================================================== *)

Section HostFacts.

Variable API_KEY : option jsstring.
Variable generateContent :
  GenerateContentParameters -> promise GenerateContentResponse.
Variable toLowerCase : jsstring -> jsstring.

Lemma generateImpactDiagram_call : forall input,
  generateImpactDiagram API_KEY generateContent toLowerCase input =
  if negb (truthy API_KEY) then inr None
  else match generateContent (diagram_call toLowerCase input) with
       | inr response => inr (first_inline_image (response_parts response))
       | inl _ => inr None
       end.
Proof. reflexivity. Qed.

(** Diagram generation never rejects. *)
Lemma generateImpactDiagram_settles : forall input,
  exists img,
    generateImpactDiagram API_KEY generateContent toLowerCase input = inr img.
Proof.
  intros input. rewrite generateImpactDiagram_call.
  destruct (negb (truthy API_KEY)); eauto.
  destruct (generateContent _); eauto.
Qed.

(** In every reachable [IDLE] state no result is held. *)
Lemma idle_has_no_result : forall c,
  reachable API_KEY generateContent toLowerCase c ->
  appState c = IDLE -> result c = None.
Proof.
  intros c R. induction R as [|c e c' R IH St]; [reflexivity|].
  destruct St as [c now input Hc | c Hc]; [|reflexivity].
  unfold handleAnalysis.
  destruct (promise_all2 _ _) as [err|[markdown diagram]]; discriminate.
Qed.

End HostFacts.

(** C5, as stated, fails: with a credential and a service whose response
    text is empty, [analyzeAccident] raises nothing and returns a
    string. *)
Lemma empty_response_counterexample :
  truthy (response_text {| response_text := Some []; candidates := None |})
  = false /\
  analyzeAccident some_key empty_text_service stub_input
  = inr (lit "Analysis failed to generate content.") /\
  forall e, analyzeAccident some_key empty_text_service stub_input <> inl e.
Proof. repeat split; try (vm_compute; reflexivity). intros e; discriminate. Qed.

(** C5, amended. When the credential is present, the images are read and
    the remote call returns a response whose text is empty or absent,
    [analyzeAccident] does not raise: it returns the fixed text
    Analysis failed to generate content. *)
Theorem empty_response_placeholder :
  forall API_KEY generateContent input imageParts response,
    truthy API_KEY = true ->
    encode_images (images input) = inr imageParts ->
    generateContent
      (analysis_request
         (imageParts ++ [{| inlineData := None;
                            text := Some (userPrompt input) |}]))
    = inr response ->
    truthy (response_text response) = false ->
    analyzeAccident API_KEY generateContent input
    = inr (lit "Analysis failed to generate content.").
Proof.
  intros API_KEY generateContent input imageParts response Hkey Himg Hcall Htext.
  unfold analyzeAccident. rewrite Hkey, Himg. cbn [negb bind].
  now rewrite Hcall, Htext.
Qed.

Lemma empty_response_placeholder_witness :
  analyzeAccident some_key empty_text_service stub_input
  = inr (lit "Analysis failed to generate content.").
Proof.
  apply (@empty_response_placeholder some_key empty_text_service stub_input []
           {| response_text := Some []; candidates := None |});
    reflexivity.
Defined.

(** C6. For every submit flow started from a reachable [IDLE] state, the
    application ends in [ERROR] with no result exactly when the analysis
    call fails; and when the analysis call succeeds while the diagram call
    raises or yields no image, the flow ends in [COMPLETE] with a result
    whose diagram is unset. *)
Theorem submit_outcome :
  forall API_KEY generateContent toLowerCase now input c,
    reachable API_KEY generateContent toLowerCase c ->
    appState c = IDLE ->
    let c' := handleAnalysis API_KEY generateContent toLowerCase now input c in
    ((appState c' = ERROR /\ result c' = None) <->
     (exists e, analyzeAccident API_KEY generateContent input = inl e)) /\
    (forall markdown,
        analyzeAccident API_KEY generateContent input = inr markdown ->
        match generateContent (diagram_call toLowerCase input) with
        | inl _ => True
        | inr response => first_inline_image (response_parts response) = None
        end ->
        appState c' = COMPLETE /\
        result c' = Some {| markdown := markdown; diagram := None;
                            timestamp := now;
                            metrics := parseAnalysisMetrics markdown |}).
Proof.
  intros API_KEY generateContent toLowerCase now input c R Hidle c'.
  pose proof (idle_has_no_result R Hidle) as Hres.
  destruct (generateImpactDiagram_settles API_KEY generateContent toLowerCase
              input) as [img Himg].
  subst c'. unfold handleAnalysis. rewrite Himg.
  destruct (analyzeAccident API_KEY generateContent input) as [e|markdown] eqn:A;
    cbn [promise_all2].
  - split.
    + split; [eauto|]. intros _. split; [reflexivity|exact Hres].
    + intros markdown H. discriminate.
  - split.
    + split; [intros [H _]; discriminate | intros [e H]; discriminate].
    + intros markdown' H Hdiag. inversion H; subst markdown'.
      split; [reflexivity|].
      rewrite generateImpactDiagram_call in Himg.
      destruct (negb (truthy API_KEY)).
      * inversion Himg; subst img. reflexivity.
      * destruct (generateContent (diagram_call toLowerCase input)).
        -- inversion Himg; subst img. reflexivity.
        -- inversion Himg; subst img. cbn [result]. now rewrite Hdiag.
Qed.

Lemma submit_outcome_witness :
  appState (handleAnalysis some_key report_only_service ascii_lower 1700000000000%Z
              stub_input initial) = COMPLETE /\
  result (handleAnalysis some_key report_only_service ascii_lower 1700000000000%Z
            stub_input initial)
  = Some {| markdown := stub_report; diagram := None;
            timestamp := 1700000000000%Z;
            metrics := parseAnalysisMetrics stub_report |}.
Proof.
  apply (proj2 (@submit_outcome some_key report_only_service ascii_lower
                  1700000000000%Z stub_input initial
                  (reachable_initial _ _ _) eq_refl) stub_report).
  - vm_compute. reflexivity.
  - vm_compute. exact I.
Defined.

(** The lowercasing of the fixtures meets the host's contract. *)
Lemma ascii_lower_lowercases : Shapes.lowercases_ascii ascii_lower.
Proof.
  intros a w b _. exists (ascii_lower a), (ascii_lower b).
  unfold ascii_lower. now rewrite !map_app.
Qed.

(** A word of Latin letters that the description includes is included, in
    lowercase, in the lowercased description. *)
Lemma includes_lowered : forall toLowerCase s w,
  Shapes.lowercases_ascii toLowerCase ->
  forallb Shapes.is_ascii_letter w = true ->
  includes s w = true ->
  includes (toLowerCase s) (ascii_lower w) = true.
Proof.
  intros toLowerCase s w L Hw H.
  destruct (includes_decompose _ _ H) as (a & b & E). subst s.
  destruct (L a w b Hw) as (a' & b' & E). rewrite E.
  apply includes_middle.
Qed.

(** C9. The impact-side hint of [generateImpactDiagram] is resolved over
    the lowercased description with a fixed precedence: the right-side
    keywords (right, passenger, rh) before the left-side ones (left,
    driver, lh), these before the rear ones (rear, back), these before
    front.  The request the function sends, whatever the service and the
    credential, carries the instruction of the first side, in that order,
    one of whose keywords the lowercased description includes, and its
    outcome is that of this request.  For example, when the description
    includes both right and rear, and the runtime's lowercasing maps a
    word of Latin letters to its lowercase form wherever it stands, the
    request carries the right-side instruction; so it does when the two
    words are spelt in any mix of capitals and small letters. *)
Theorem location_precedence :
  forall API_KEY generateContent (toLowerCase : jsstring -> jsstring)
         (input : AccidentInput),
    let descLower := toLowerCase (description input) in
    let drawn_with (instruction : jsstring) : promise (option jsstring) :=
      if negb (truthy API_KEY) then inr None
      else match generateContent
                   (diagram_request (diagram_prompt input instruction)) with
           | inr response => inr (first_inline_image (response_parts response))
           | inl _ => inr None
           end in
    locationInstruction descLower = instruction_for (resolved_side descLower) /\
    generateImpactDiagram API_KEY generateContent toLowerCase input
    = drawn_with (instruction_for (resolved_side descLower)) /\
    (Shapes.lowercases_ascii toLowerCase ->
     includes (description input) (lit "right") = true ->
     includes (description input) (lit "rear") = true ->
     generateImpactDiagram API_KEY generateContent toLowerCase input
     = drawn_with (instruction_for (Some RightSide))) /\
    (forall right rear,
        Shapes.lowercases_ascii toLowerCase ->
        forallb Shapes.is_ascii_letter right = true ->
        ascii_lower right = lit "right" ->
        forallb Shapes.is_ascii_letter rear = true ->
        ascii_lower rear = lit "rear" ->
        includes (description input) right = true ->
        includes (description input) rear = true ->
        resolved_side descLower = Some RightSide /\
        generateImpactDiagram API_KEY generateContent toLowerCase input
        = drawn_with (instruction_for (Some RightSide))).
Proof.
  intros API_KEY generateContent toLowerCase input descLower drawn_with.
  assert (E : forall s,
             locationInstruction s = instruction_for (resolved_side s)).
  { intros s. unfold locationInstruction, resolved_side, mentions, keywords.
    cbn [find existsb]. rewrite !orb_false_r, !orb_assoc.
    destruct (includes s (lit "right") || includes s (lit "passenger")
              || includes s (lit "rh")); [reflexivity|].
    destruct (includes s (lit "left") || includes s (lit "driver")
              || includes s (lit "lh")); [reflexivity|].
    destruct (includes s (lit "rear") || includes s (lit "back"));
      [reflexivity|].
    destruct (includes s (lit "front")); reflexivity. }
  assert (G : generateImpactDiagram API_KEY generateContent toLowerCase input
              = drawn_with (instruction_for (resolved_side descLower))).
  { unfold generateImpactDiagram, drawn_with. cbv zeta. fold descLower.
    now rewrite (E descLower). }
  assert (W : forall right rear,
             Shapes.lowercases_ascii toLowerCase ->
             forallb Shapes.is_ascii_letter right = true ->
             ascii_lower right = lit "right" ->
             forallb Shapes.is_ascii_letter rear = true ->
             ascii_lower rear = lit "rear" ->
             includes (description input) right = true ->
             includes (description input) rear = true ->
             resolved_side descLower = Some RightSide /\
             generateImpactDiagram API_KEY generateContent toLowerCase input
             = drawn_with (instruction_for (Some RightSide))).
  { intros right rear L Hright Eright _ _ Iright _.
    assert (S : resolved_side descLower = Some RightSide).
    { pose proof (@includes_lowered toLowerCase (description input) right
                    L Hright Iright) as I.
      rewrite Eright in I. fold descLower in I.
      unfold resolved_side, mentions, keywords. cbn [find existsb].
      now rewrite I. }
    split; [exact S|]. now rewrite G, S. }
  split; [apply E|]. split; [exact G|]. split; [|exact W].
  intros L Iright Irear.
  apply (W (lit "right") (lit "rear") L); auto.
Qed.

Lemma location_precedence_witness :
  resolved_side (ascii_lower (description side_swipe_input))
  = Some RightSide /\
  generateImpactDiagram some_key drawing_service ascii_lower side_swipe_input
  = if negb (truthy some_key) then inr None
    else match drawing_service
                 (diagram_request
                    (diagram_prompt side_swipe_input
                       (instruction_for (Some RightSide)))) with
         | inr response => inr (first_inline_image (response_parts response))
         | inl _ => inr None
         end.
Proof.
  apply (proj2 (proj2 (proj2 (location_precedence some_key drawing_service
                                ascii_lower side_swipe_input)))
           (lit "RIGHT") (lit "REAR"));
    try apply ascii_lower_lowercases; vm_compute; reflexivity.
Defined.

Lemma first_inline_image_found : forall ps img,
  first_inline_image ps = Some img ->
  exists before part blob after,
    ps = before ++ part :: after /\
    Forall (fun p => inlineData p = None) before /\
    inlineData part = Some blob /\
    img = lit "data:image/png;base64," ++ to_string (data blob).
Proof.
  induction ps as [|p ps IH]; intros img H; cbn [first_inline_image] in H;
    [discriminate|].
  destruct (inlineData p) as [blob|] eqn:E.
  - inversion H. exists [], p, blob, ps. repeat split; auto.
  - destruct (IH _ H) as (before & part & blob & after & Hps & Hb & Hp & Hi).
    exists (p :: before), part, blob, after. subst ps. repeat split; auto.
Qed.

(** C10. Whenever [generateImpactDiagram] returns an image, the returned
    string is the prefix [data:image/png;base64,] followed by the raw data
    of the first part of the response that carries inline data, whatever
    MIME type the service reported for that part. *)
Theorem diagram_data_uri :
  forall API_KEY generateContent toLowerCase input img,
    generateImpactDiagram API_KEY generateContent toLowerCase input
    = inr (Some img) ->
    exists response before part blob after,
      generateContent (diagram_call toLowerCase input) = inr response /\
      response_parts response = before ++ part :: after /\
      Forall (fun p => inlineData p = None) before /\
      inlineData part = Some blob /\
      img = lit "data:image/png;base64," ++ to_string (data blob) /\
      (forall raw, data blob = Some raw ->
                   img = lit "data:image/png;base64," ++ raw).
Proof.
  intros API_KEY generateContent toLowerCase input img H.
  rewrite generateImpactDiagram_call in H.
  destruct (negb (truthy API_KEY)); [discriminate|].
  destruct (generateContent (diagram_call toLowerCase input))
    as [e|response]; [discriminate|].
  inversion H as [F]. apply first_inline_image_found in F.
  destruct F as (before & part & blob & after & Hps & Hb & Hp & Hi).
  exists response, before, part, blob, after. repeat split; auto.
  intros raw Hraw. now rewrite Hi, Hraw.
Qed.

Lemma diagram_data_uri_witness :
  exists response before part blob after,
    drawing_service (diagram_call ascii_lower side_swipe_input) = inr response /\
    response_parts response = before ++ part :: after /\
    Forall (fun p => inlineData p = None) before /\
    inlineData part = Some blob /\
    lit "data:image/png;base64,/9j/4AAQSkZJRg=="
    = lit "data:image/png;base64," ++ to_string (data blob) /\
    (forall raw, data blob = Some raw ->
                 lit "data:image/png;base64,/9j/4AAQSkZJRg=="
                 = lit "data:image/png;base64," ++ raw).
Proof.
  apply (@diagram_data_uri some_key drawing_service ascii_lower
           side_swipe_input (lit "data:image/png;base64,/9j/4AAQSkZJRg==")).
  vm_compute. reflexivity.
Defined.

(* ===================================================================== *)
(** ** Further properties of the gateway                                  *)
(* ===================================================================== *)

Import VehicleIdentification InputForm ReportView Shapes MoreFixtures.

Module GatewayFacts.

Lemma forallb_false_witness : forall (A : Type) (f : A -> bool) l,
  forallb f l = false -> exists x, In x l /\ f x = false.
Proof.
  intros A f. induction l as [|x l IH]; cbn [forallb]; [discriminate|].
  intros H. destruct (f x) eqn:E.
  - destruct (IH H) as (y & Hy & Hf). exists y. split; [now right|exact Hf].
  - exists x. split; [now left|exact E].
Qed.

Lemma truthy_not_empty : forall v,
  truthy v = true -> to_string v <> [].
Proof. intros [[|c s]|]; cbn; intros H; discriminate. Qed.

(** The images are encoded one by one, in order; the first unreadable one
    rejects the whole. *)
Lemma encode_images_readable : forall files,
  encode_images files =
  if forallb readable files then inr (map image_part files)
  else inl ReaderError.
Proof.
  induction files as [|f files IH]; [reflexivity|].
  cbn [encode_images forallb map]. unfold fileToBase64, readable at 1, image_part at 1.
  destruct (dataURL f) as [r|]; cbn [bind andb]; [|reflexivity].
  rewrite IH. destruct (forallb readable files); reflexivity.
Qed.

(** [analyzeAccident] by cases: credential, images, service. *)
Lemma analyzeAccident_cases : forall API_KEY generateContent input,
  analyzeAccident API_KEY generateContent input =
  if negb (truthy API_KEY) then inl (Error (lit "API Key is missing"))
  else if forallb readable (images input)
  then match generateContent
               (analysis_request
                  (map image_part (images input)
                   ++ [text_part (userPrompt input)])) with
       | inr response => inr (text_or_placeholder response)
       | inl e => inl e
       end
  else inl ReaderError.
Proof.
  intros API_KEY generateContent input. unfold analyzeAccident.
  destruct (negb (truthy API_KEY)); [reflexivity|].
  rewrite encode_images_readable.
  destruct (forallb readable (images input)); reflexivity.
Qed.

Lemma identifyVehicleFromImage_cases :
  forall API_KEY generateStructured JSON_parse images,
  identifyVehicleFromImage API_KEY generateStructured JSON_parse images =
  if negb (truthy API_KEY) then inl (Error (lit "API Key is missing"))
  else if forallb readable images
  then match generateStructured
               (identify_request
                  (map image_part images ++ [text_part identify_prompt])) with
       | inr response =>
           if truthy (response_text response)
           then JSON_parse (to_string (response_text response))
           else inl (Error (lit "No response from AI"))
       | inl e => inl e
       end
  else inl ReaderError.
Proof.
  intros API_KEY generateStructured JSON_parse images.
  unfold identifyVehicleFromImage.
  destruct (negb (truthy API_KEY)); [reflexivity|].
  rewrite encode_images_readable.
  destruct (forallb readable images); cbn [bind]; [|reflexivity].
  destruct (generateStructured _) as [e|response]; cbn [bind]; [reflexivity|].
  destruct (truthy (response_text response)); reflexivity.
Qed.

End GatewayFacts.

Import GatewayFacts.

(** X1. Without a credential (absent or empty), whatever the service
    would answer: [analyzeAccident] and [identifyVehicleFromImage] reject
    with the error API Key is missing, [generateImpactDiagram] resolves to
    nothing, and a submitted analysis ends in [ERROR] with the fixed
    message. *)
Theorem no_credential_outcomes :
  forall API_KEY generateContent generateStructured JSON_parse toLowerCase
         now input files c,
    truthy API_KEY = false ->
    analyzeAccident API_KEY generateContent input
    = inl (Error (lit "API Key is missing")) /\
    identifyVehicleFromImage API_KEY generateStructured JSON_parse files
    = inl (Error (lit "API Key is missing")) /\
    generateImpactDiagram API_KEY generateContent toLowerCase input = inr None /\
    appState (handleAnalysis API_KEY generateContent toLowerCase now input c)
    = ERROR /\
    error (handleAnalysis API_KEY generateContent toLowerCase now input c)
    = Some failure_message.
Proof.
  intros API_KEY generateContent generateStructured JSON_parse toLowerCase
         now input files c Hkey.
  assert (A : analyzeAccident API_KEY generateContent input
              = inl (Error (lit "API Key is missing")))
    by (rewrite analyzeAccident_cases, Hkey; reflexivity).
  repeat split.
  - exact A.
  - rewrite identifyVehicleFromImage_cases, Hkey. reflexivity.
  - rewrite generateImpactDiagram_call, Hkey. reflexivity.
  - unfold handleAnalysis. rewrite A. reflexivity.
  - unfold handleAnalysis. rewrite A. reflexivity.
Qed.

Lemma no_credential_outcomes_witness :
  analyzeAccident (Some []) drawing_service photo_input
  = inl (Error (lit "API Key is missing")) /\
  identifyVehicleFromImage (Some []) naming_service parse_civic [photo]
  = inl (Error (lit "API Key is missing")) /\
  generateImpactDiagram (Some []) drawing_service ascii_lower photo_input
  = inr None /\
  appState (handleAnalysis (Some []) drawing_service ascii_lower 0%Z
              photo_input initial) = ERROR /\
  error (handleAnalysis (Some []) drawing_service ascii_lower 0%Z
           photo_input initial) = Some failure_message.
Proof.
  apply (@no_credential_outcomes (Some []) drawing_service naming_service
           parse_civic ascii_lower 0%Z photo_input [photo] initial).
  reflexivity.
Defined.

(** X2. [analyzeAccident] rejects exactly when the credential is missing,
    or one of the attached images cannot be read, or the remote call
    itself fails on the request made of one inline part per image, in
    order, followed by the text prompt. *)
Theorem analyze_rejects_iff : forall API_KEY generateContent input,
  (exists e, analyzeAccident API_KEY generateContent input = inl e) <->
  (truthy API_KEY = false \/
   (exists file, In file (images input) /\ dataURL file = None) \/
   (exists e,
       generateContent
         (analysis_request
            (map image_part (images input) ++ [text_part (userPrompt input)]))
       = inl e)).
Proof.
  intros API_KEY generateContent input. rewrite analyzeAccident_cases.
  destruct (truthy API_KEY) eqn:K; cbn [negb].
  - destruct (forallb readable (images input)) eqn:R.
    + destruct (generateContent _) as [e|response] eqn:G.
      * split; [intros _; right; right; eauto | eauto].
      * split; [intros [e H]; discriminate|].
        intros [H|[(file & Hin & Hfile)|[e H]]]; try discriminate.
        pose proof (proj1 (forallb_forall _ _) R file Hin) as Hr.
        unfold readable in Hr. rewrite Hfile in Hr. discriminate.
    + split; [|eauto]. intros _. right. left.
      destruct (forallb_false_witness _ _ R) as (file & Hin & Hr).
      exists file. split; [exact Hin|].
      unfold readable in Hr. destruct (dataURL file); [discriminate|reflexivity].
  - split; [intros _; now left | eauto].
Qed.

(** X3. [analyzeAccident] resolves exactly when the credential is present,
    every image is readable and the remote call returns; the value is then
    the response text, or the placeholder when that text is empty or
    absent, so it is never the empty string. *)
Theorem analyze_resolves_iff : forall API_KEY generateContent input markdown,
  analyzeAccident API_KEY generateContent input = inr markdown <->
  (truthy API_KEY = true /\
   forallb readable (images input) = true /\
   exists response,
     generateContent
       (analysis_request
          (map image_part (images input) ++ [text_part (userPrompt input)]))
     = inr response /\
     markdown = text_or_placeholder response /\
     markdown <> []).
Proof.
  intros API_KEY generateContent input markdown. rewrite analyzeAccident_cases.
  destruct (truthy API_KEY); cbn [negb].
  - destruct (forallb readable (images input)).
    + destruct (generateContent _) as [e|response].
      * split; [discriminate|]. intros (_ & _ & r & H & _). discriminate.
      * split.
        -- intros H. inversion H; subst markdown. repeat split.
           exists response. repeat split. unfold text_or_placeholder.
           destruct (truthy (response_text response)) eqn:T;
             [now apply truthy_not_empty | discriminate].
        -- intros (_ & _ & r & H & Hm & _). inversion H; subst. reflexivity.
    + split; [discriminate|]. intros (_ & H & _). discriminate.
  - split; [discriminate|]. intros (H & _). discriminate.
Qed.

(** X4. The images of a request are encoded one by one: when all are
    readable the result holds one inline part per image, in the order of
    upload, each with the MIME type of its file and no text; as soon as
    one is unreadable the whole encoding is rejected with the reader's
    error. *)
Theorem encode_images_parts : forall files,
  (forallb readable files = true ->
   exists ps,
     encode_images files = inr ps /\
     length ps = length files /\
     forall i file, nth_error files i = Some file ->
       exists blob,
         nth_error ps i = Some {| inlineData := Some blob; text := None |} /\
         mimeType blob = Some (type file)) /\
  ((exists file, In file files /\ dataURL file = None) ->
   encode_images files = inl ReaderError).
Proof.
  intros files. rewrite encode_images_readable. split.
  - intros R. rewrite R. exists (map image_part files). repeat split.
    + apply length_map.
    + intros i file Hi. eexists. split.
      * rewrite nth_error_map, Hi. reflexivity.
      * reflexivity.
  - intros (file & Hin & Hfile).
    destruct (forallb readable files) eqn:R; [|reflexivity].
    pose proof (proj1 (forallb_forall _ _) R file Hin) as Hr.
    unfold readable in Hr. rewrite Hfile in Hr. discriminate.
Qed.

Lemma encode_images_parts_witness :
  (exists ps,
      encode_images [photo; second_photo] = inr ps /\
      length ps = 2 /\
      forall i file, nth_error [photo; second_photo] i = Some file ->
        exists blob,
          nth_error ps i = Some {| inlineData := Some blob; text := None |} /\
          mimeType blob = Some (type file)) /\
  encode_images [photo; damaged_photo] = inl ReaderError.
Proof.
  split.
  - apply (proj1 (encode_images_parts [photo; second_photo])). reflexivity.
  - apply (proj2 (encode_images_parts [photo; damaged_photo])).
    exists damaged_photo. split; [right; left; reflexivity | reflexivity].
Defined.

Module TextFacts.

Lemma split_comma_no_comma : forall s,
  comma_free s = true -> split_comma s = [s].
Proof.
  induction s as [|c s IH]; [reflexivity|].
  cbn [comma_free forallb]. intros H. apply andb_prop in H.
  destruct H as [Hc Hs]. apply negb_true_iff in Hc.
  cbn [split_comma]. rewrite Hc, (IH Hs). reflexivity.
Qed.

Lemma split_comma_first : forall header rest,
  comma_free header = true ->
  split_comma (header ++ 44%N :: rest) = header :: split_comma rest.
Proof.
  induction header as [|c h IH]; intros rest H; [reflexivity|].
  cbn [comma_free forallb] in H. apply andb_prop in H.
  destruct H as [Hc Hh]. apply negb_true_iff in Hc.
  cbn [app split_comma]. rewrite Hc, (IH rest Hh). reflexivity.
Qed.

(** A text includes a pattern exactly when the pattern occurs in it. *)
Lemma includes_occurrences : forall p s,
  includes s p = true <-> 0 < occurrences p s.
Proof.
  intros p. induction s as [|c s IH]; cbn [includes occurrences].
  - destruct (is_prefix p []); cbn; split; intros H; try lia; auto; discriminate.
  - destruct (is_prefix p (c :: s)); cbn [orb].
    + split; intros _; [lia|reflexivity].
    + rewrite IH. cbn. reflexivity.
Qed.

Lemma not_includes_occurrences : forall p s,
  includes s p = false -> occurrences p s = 0.
Proof.
  intros p s H. destruct (occurrences p s) eqn:E; [reflexivity|].
  assert (I : includes s p = true) by (apply includes_occurrences; lia).
  congruence.
Qed.

End TextFacts.

Import TextFacts.

(** X5. [fileToBase64] undoes a data URL: for a URL made of a header, a
    comma and a payload, neither holding a comma, it resolves to the
    payload; so the raw data of a diagram comes back from the URI that
    [generateImpactDiagram] builds around it.  For a reader result with no
    comma at all (an empty file) it resolves to undefined instead of
    rejecting. *)
Theorem fileToBase64_round_trip : forall file,
  (forall header payload,
      dataURL file = Some (header ++ 44%N :: payload) ->
      comma_free header = true -> comma_free payload = true ->
      fileToBase64 file = inr (Some payload)) /\
  (forall result,
      dataURL file = Some result -> comma_free result = true ->
      fileToBase64 file = inr None) /\
  (forall raw,
      dataURL file = Some (lit "data:image/png;base64," ++ raw) ->
      comma_free raw = true ->
      fileToBase64 file = inr (Some raw)).
Proof.
  intros file.
  assert (General : forall header payload,
             dataURL file = Some (header ++ 44%N :: payload) ->
             comma_free header = true -> comma_free payload = true ->
             fileToBase64 file = inr (Some payload)).
  { intros header payload Hurl Hh Hp. unfold fileToBase64. rewrite Hurl.
    rewrite split_comma_first by assumption.
    rewrite split_comma_no_comma by assumption. reflexivity. }
  split; [exact General|]. split.
  - intros result Hurl Hr. unfold fileToBase64. rewrite Hurl.
    rewrite split_comma_no_comma by assumption. reflexivity.
  - intros raw Hurl Hraw.
    apply (General (lit "data:image/png;base64") raw); auto.
Qed.

Lemma fileToBase64_round_trip_witness :
  fileToBase64 photo = inr (Some (lit "/9j/4AAQSkZJRg==")) /\
  fileToBase64 empty_photo = inr None /\
  fileToBase64 second_photo = inr (Some (lit "iVBORw0KGgo=")).
Proof.
  split; [|split].
  - apply (proj1 (fileToBase64_round_trip photo)
             (lit "data:image/jpeg;base64") (lit "/9j/4AAQSkZJRg=="));
      reflexivity.
  - apply (proj1 (proj2 (fileToBase64_round_trip empty_photo)) (lit "data:"));
      reflexivity.
  - apply (proj2 (proj2 (fileToBase64_round_trip second_photo))
             (lit "iVBORw0KGgo=")); reflexivity.
Defined.


(** X7. [identifyVehicleFromImage] resolves exactly when the credential is
    present, every image is readable, the remote call returns a non-empty
    text and [JSON.parse] accepts it; on an empty or absent text it
    rejects with the error No response from AI (where [analyzeAccident]
    substitutes a placeholder). *)
Theorem identify_outcomes :
  forall API_KEY generateStructured JSON_parse files,
    (forall v,
        identifyVehicleFromImage API_KEY generateStructured JSON_parse files
        = inr v <->
        (truthy API_KEY = true /\
         forallb readable files = true /\
         exists response,
           generateStructured
             (identify_request
                (map image_part files ++ [text_part identify_prompt]))
           = inr response /\
           truthy (response_text response) = true /\
           JSON_parse (to_string (response_text response)) = inr v)) /\
    (forall response,
        truthy API_KEY = true ->
        forallb readable files = true ->
        generateStructured
          (identify_request
             (map image_part files ++ [text_part identify_prompt]))
        = inr response ->
        truthy (response_text response) = false ->
        identifyVehicleFromImage API_KEY generateStructured JSON_parse files
        = inl (Error (lit "No response from AI"))).
Proof.
  intros API_KEY generateStructured JSON_parse files.
  rewrite identifyVehicleFromImage_cases. split.
  - intros v. destruct (truthy API_KEY); cbn [negb].
    + destruct (forallb readable files).
      * destruct (generateStructured _) as [e|response].
        -- split; [discriminate|]. intros (_ & _ & r & H & _). discriminate.
        -- destruct (truthy (response_text response)) eqn:T.
           ++ split.
              ** intros H. repeat split. exists response. now repeat split.
              ** intros (_ & _ & r & H & _ & P). inversion H; subst r. exact P.
           ++ split; [discriminate|].
              intros (_ & _ & r & H & T' & _). inversion H; subst r. congruence.
      * split; [discriminate|]. intros (_ & H & _). discriminate.
    + split; [discriminate|]. intros (H & _). discriminate.
  - intros response K R G T. now rewrite K, R, G, T.
Qed.

Lemma identify_outcomes_witness :
  identifyVehicleFromImage some_key silent_service parse_civic [photo]
  = inl (Error (lit "No response from AI")).
Proof.
  apply (proj2 (identify_outcomes some_key silent_service parse_civic [photo])
           {| response_text := None; candidates := None |});
    reflexivity.
Defined.

Lemma includes_split : forall s a p b,
  s = a ++ p ++ b -> includes s p = true.
Proof. intros s a p b E. subst s. apply includes_middle. Qed.

(** X8. The prompts carry the operator's data verbatim: the analysis
    prompt includes the description, the vehicle as year, make and model
    separated by single spaces, and after Context/Conditions the context,
    or None provided when the context is empty; the diagram prompt
    includes the description and the impact-side instruction. *)
Theorem prompts_embed_input : forall input instruction,
  includes (userPrompt input) (description input) = true /\
  includes (userPrompt input)
    (lit "Vehicle Details: " ++ year (vehicle input) ++ lit " "
     ++ make (vehicle input) ++ lit " " ++ model (vehicle input)) = true /\
  includes (userPrompt input)
    (lit "Context/Conditions: "
     ++ match context input with
        | [] => lit "None provided"
        | _ => context input
        end) = true /\
  includes (diagram_prompt input instruction) (description input) = true /\
  includes (diagram_prompt input instruction) instruction = true.
Proof.
  intros input instruction. unfold userPrompt, diagram_prompt.
  cbn [concat]. repeat split.
  - do 7 apply includes_skip. apply includes_front.
  - match goal with
    | |- includes (?t1 ++ _) _ = true =>
        change t1 with
          (firstn (length t1 - length (lit "Vehicle Details: ")) t1
           ++ lit "Vehicle Details: ");
        set (before := firstn (length t1 - length (lit "Vehicle Details: ")) t1)
    end.
    eapply includes_split with (a := before).
    rewrite <- !app_assoc. reflexivity.
  - do 8 apply includes_skip.
    match goal with
    | |- includes (?t3 ++ _) _ = true =>
        change t3 with
          (firstn (length t3 - length (lit "Context/Conditions: ")) t3
           ++ lit "Context/Conditions: ");
        set (before := firstn (length t3 - length (lit "Context/Conditions: ")) t3)
    end.
    eapply includes_split with (a := before).
    rewrite <- !app_assoc.
    destruct (context input); reflexivity.
  - do 7 apply includes_skip. apply includes_front.
  - do 9 apply includes_skip. apply includes_front.
Qed.

(* ===================================================================== *)
(** ** Further properties of the metrics extractor                        *)
(* ===================================================================== *)

Module NumberFacts.

Lemma decimal_value_nonneg : forall ds,
  forallb is_digit ds = true -> (0 <= decimal_value ds)%Z.
Proof.
  unfold decimal_value.
  assert (G : forall ds acc,
             forallb is_digit ds = true -> (0 <= acc)%Z ->
             (0 <= fold_left (fun a c => 10 * a + (Z.of_N c - 48)) ds acc)%Z).
  { induction ds as [|c ds IH]; intros acc H Hacc; [exact Hacc|].
    cbn [forallb] in H. apply andb_prop in H. destruct H as [Hc Hds].
    apply is_digit_range in Hc. cbn [fold_left]. apply IH; [exact Hds|lia]. }
  intros ds H. apply G; [exact H|lia].
Qed.

Lemma round_to_double_nonneg : forall m,
  (0 <= m)%Z ->
  (exists z, round_to_double m = Num z /\ (0 <= z)%Z) \/
  round_to_double m = Infinity false.
Proof.
  intros m Hm. unfold round_to_double.
  destruct (m <? 2 ^ 53)%Z; [left; eauto|]. cbv zeta.
  set (e := (Z.log2 m - 52)%Z).
  set (q := (m / 2 ^ e)%Z).
  match goal with
  | |- context [if ?c then (q + 1)%Z else q] =>
      set (q' := if c then (q + 1)%Z else q)
  end.
  destruct (q' * 2 ^ e >=? 2 ^ 1024)%Z; [now right|].
  left. eexists. split; [reflexivity|].
  assert (Hp : (0 <= 2 ^ e)%Z) by apply Z.pow_nonneg, Z.le_0_2.
  assert (Hq : (0 <= q)%Z).
  { unfold q. destruct (Z.eq_dec (2 ^ e) 0) as [Z0|NZ].
    - rewrite Z0. now rewrite Z.div_0_r.
    - apply Z.div_pos; lia. }
  assert (Hq' : (0 <= q')%Z).
  { unfold q'. match goal with |- context [if ?c then _ else _] => destruct c end; lia. }
  now apply Z.mul_nonneg_nonneg.
Qed.

End NumberFacts.

Module AbsenceFacts.

Lemma first_match_absent :
  forall (A : Type) (p : jsstring) (g : jsstring -> option A) d,
    includes d p = false ->
    first_match (fun s => if is_prefix p s then g s else None) d = None.
Proof.
  intros A p g. induction d as [|c d IH]; intros H;
    rewrite includes_unfold in H; apply orb_false_iff in H;
    destruct H as [Hp Hd]; cbn [first_match]; rewrite Hp; auto.
Qed.

Lemma severity_absent : forall d,
  includes d (lit "Severity") = false -> severity_run_on_line d = None.
Proof. intros d H. now apply first_match_absent. Qed.

Lemma impact_row_absent : forall d,
  includes d impact_label_cell = false -> primary_impact_row d = None.
Proof. intros d H. now apply first_match_absent. Qed.

End AbsenceFacts.

Module TrimFacts.

Lemma trimStart_clean : forall s, leading_space (trimStart s) = false.
Proof.
  induction s as [|c s IH]; [reflexivity|].
  cbn [trimStart]. destruct (is_white_space c) eqn:E; [exact IH|].
  cbn [leading_space]. exact E.
Qed.

Lemma trimStart_suffix : forall s, exists pre, s = pre ++ trimStart s.
Proof.
  induction s as [|c s [pre IH]]; [now exists []|].
  cbn [trimStart]. destruct (is_white_space c).
  - exists (c :: pre). cbn [app]. now f_equal.
  - now exists [].
Qed.

Lemma trimEnd_prefix : forall s, exists post, s = trimEnd s ++ post.
Proof.
  intros s. unfold trimEnd. destruct (trimStart_suffix (rev s)) as [pre E].
  exists (rev pre). rewrite <- rev_app_distr, <- E. now rewrite rev_involutive.
Qed.

Lemma trim_clean : forall s,
  leading_space (trim s) = false /\ trailing_space (trim s) = false.
Proof.
  intros s. unfold trim. split.
  - destruct (trimEnd_prefix (trimStart s)) as [post E].
    pose proof (trimStart_clean s) as L. rewrite E in L.
    destruct (trimEnd (trimStart s)); [reflexivity|exact L].
  - unfold trailing_space, trimEnd. rewrite rev_involutive.
    apply trimStart_clean.
Qed.

Lemma trim_single_line : forall s,
  single_line s = true -> single_line (trim s) = true.
Proof.
  intros s H. unfold trim.
  destruct (trimStart_suffix s) as [pre E].
  destruct (trimEnd_prefix (trimStart s)) as [post E'].
  rewrite E in H. unfold single_line in *. rewrite forallb_app in H.
  apply andb_prop in H. destruct H as [_ H]. rewrite E' in H.
  rewrite forallb_app in H. apply andb_prop in H. now destruct H.
Qed.

End TrimFacts.

Import NumberFacts AbsenceFacts TrimFacts.

(** X9. For every document, [replaceCount] is the number of occurrences
    of [[REPLACE]] and [repairCount] the number of occurrences of
    [[REPAIR]], anywhere in the document. *)
Theorem operation_counts : forall d,
  replaceCount (parseAnalysisMetrics d)
  = Num (Z.of_nat (occurrences (lit "[REPLACE]") d)) /\
  repairCount (parseAnalysisMetrics d)
  = Num (Z.of_nat (occurrences (lit "[REPAIR]") d)).
Proof.
  intros d. rewrite parseAnalysisMetrics_fields.
  cbn [replaceCount repairCount].
  now rewrite CountFacts.replace_count_spec, CountFacts.repair_count_spec.
Qed.

(** X10. For every document, the severity score is a non-negative integer
    or positive infinity: it is never NaN and never negative; and when the
    matched digit run denotes a value below 2^53, the score is exactly that
    value. *)
Theorem severity_never_negative : forall d,
  ((exists z, severityScore (parseAnalysisMetrics d) = Num z /\ (0 <= z)%Z) \/
   severityScore (parseAnalysisMetrics d) = Infinity false) /\
  (forall ds,
      severity_run_on_line d = Some ds ->
      (decimal_value ds < 2 ^ 53)%Z ->
      severityScore (parseAnalysisMetrics d) = Num (decimal_value ds)).
Proof.
  intros d. rewrite parseAnalysisMetrics_fields. cbn [severityScore].
  rewrite SeverityFacts.severity_field_spec. split.
  - destruct (severity_run_on_line d) as [ds|] eqn:R; cbn [score_of].
    + destruct (SeverityFacts.severity_run_on_line_digits _ R) as [_ Hall].
      apply round_to_double_nonneg, decimal_value_nonneg, Hall.
    + left. exists 0%Z. split; [reflexivity|lia].
  - intros ds R Hsmall. rewrite R. now apply SpecFacts.score_of_exact.
Qed.

Lemma severity_never_negative_witness :
  severityScore (parseAnalysisMetrics overrated_report) = Num 12.
Proof.
  apply (proj2 (severity_never_negative overrated_report) (lit "12"));
    vm_compute; reflexivity.
Defined.

(** X11. What a document lacks is left at its default: without the word
    Severity the score is 0; without [[REPLACE]] (or [[REPAIR]]) that count
    is 0; without any of the four risk tokens the fraud risk is LOW; and
    without the row label [| Primary Impact Zone | ] the primary impact is
    Unknown. *)
Theorem absent_patterns_default : forall d,
  (includes d (lit "Severity") = false ->
   severityScore (parseAnalysisMetrics d) = Num 0) /\
  (includes d (lit "[REPLACE]") = false ->
   replaceCount (parseAnalysisMetrics d) = Num 0) /\
  (includes d (lit "[REPAIR]") = false ->
   repairCount (parseAnalysisMetrics d) = Num 0) /\
  (includes d (lit "[SUSPICIOUS]") = false ->
   includes d (lit "[INCONSISTENT]") = false ->
   includes d (lit "[DETECTED]") = false ->
   includes d (lit "[FAIL]") = false ->
   fraudRisk (parseAnalysisMetrics d) = LOW) /\
  (includes d (lit "| Primary Impact Zone | ") = false ->
   primaryImpact (parseAnalysisMetrics d) = lit "Unknown").
Proof.
  intros d. rewrite parseAnalysisMetrics_fields.
  cbn [severityScore replaceCount repairCount fraudRisk primaryImpact].
  rewrite SeverityFacts.severity_field_spec, ImpactFacts.impact_field_spec,
    CountFacts.suspicious_count_spec, CountFacts.replace_count_spec,
    CountFacts.repair_count_spec.
  repeat split.
  - intros H. now rewrite (severity_absent _ H).
  - intros H. now rewrite (not_includes_occurrences _ _ H).
  - intros H. now rewrite (not_includes_occurrences _ _ H).
  - intros H1 H2 H3 H4. unfold risk_token_count.
    now rewrite (not_includes_occurrences _ _ H1),
      (not_includes_occurrences _ _ H2), (not_includes_occurrences _ _ H3),
      (not_includes_occurrences _ _ H4).
  - intros H. now rewrite (impact_row_absent _ H).
Qed.

Lemma absent_patterns_default_witness :
  parseAnalysisMetrics placeholder = default_metrics.
Proof.
  pose proof (absent_patterns_default placeholder) as (H1 & H2 & H3 & H4 & H5).
  specialize (H1 eq_refl). specialize (H2 eq_refl). specialize (H3 eq_refl).
  specialize (H4 eq_refl eq_refl eq_refl eq_refl). specialize (H5 eq_refl).
  destruct (parseAnalysisMetrics placeholder); cbn in *. now subst.
Defined.

(** X12. For every document, the primary impact has no white space at
    either end and holds no line terminator: it is a trimmed label of one
    line, whether captured or the default. *)
Theorem primary_impact_is_trimmed_line : forall d,
  leading_space (primaryImpact (parseAnalysisMetrics d)) = false /\
  trailing_space (primaryImpact (parseAnalysisMetrics d)) = false /\
  single_line (primaryImpact (parseAnalysisMetrics d)) = true.
Proof.
  intros d. rewrite parseAnalysisMetrics_fields. cbn [primaryImpact].
  rewrite ImpactFacts.impact_field_spec.
  destruct (primary_impact_row d) as [t|] eqn:R; cbn [impact_label].
  - destruct (SpecFacts.primary_impact_row_shape _ R) as (a & b & _ & Hl).
    destruct (trim_clean t) as [L T]. repeat split; auto.
    now apply trim_single_line.
  - repeat split; reflexivity.
Qed.

Module StackFacts.

Lemma is_prefix_stacked : forall tok s b,
  tok <> [] -> line_feed_free tok = true ->
  is_prefix tok (stacked s b) = is_prefix tok s.
Proof.
  unfold stacked.
  induction tok as [|t tok IH]; intros s b Hne Hlf; [congruence|].
  cbn [line_feed_free forallb] in Hlf. apply andb_prop in Hlf.
  destruct Hlf as [Ht Hlf]. apply negb_true_iff in Ht.
  destruct s as [|y s]; cbn [app is_prefix].
  - now rewrite Ht.
  - destruct tok as [|t' tok]; [reflexivity|].
    rewrite (IH s b); [reflexivity|discriminate|exact Hlf].
Qed.

Lemma occurrences_stacked : forall tok a b,
  tok <> [] -> line_feed_free tok = true ->
  occurrences tok (stacked a b) = occurrences tok a + occurrences tok b.
Proof.
  intros tok a b Hne Hlf. induction a as [|c a IH].
  - change (stacked [] b) with (10%N :: b). cbn [occurrences].
    change (10%N :: b) with (stacked [] b).
    rewrite is_prefix_stacked by assumption. lia.
  - change (stacked (c :: a) b) with (c :: stacked a b). cbn [occurrences].
    change (c :: stacked a b) with (stacked (c :: a) b).
    rewrite is_prefix_stacked by assumption. rewrite IH. lia.
Qed.

Lemma skipn_stacked : forall n s b,
  n <= length s -> skipn n (stacked s b) = stacked (skipn n s) b.
Proof.
  intros n s b H. unfold stacked. rewrite skipn_app.
  replace (n - length s) with 0 by lia. reflexivity.
Qed.

Lemma digits_prefix_stacked : forall s b,
  digits_prefix (stacked s b) = digits_prefix s.
Proof.
  unfold stacked. induction s as [|c s IH]; intros b; [reflexivity|].
  cbn [app digits_prefix]. destruct (is_digit c); [|reflexivity].
  now rewrite IH.
Qed.

Lemma digits_prefix_length : forall s, length (digits_prefix s) <= length s.
Proof.
  induction s as [|c s IH]; cbn [digits_prefix length]; [lia|].
  destruct (is_digit c); cbn [length]; lia.
Qed.

Lemma score_here_stacked : forall s b,
  score_here (stacked s b) = score_here s.
Proof.
  intros s b. unfold score_here. rewrite digits_prefix_stacked.
  destruct (digits_prefix s) as [|c ds] eqn:D; [reflexivity|].
  rewrite skipn_stacked by (rewrite <- D; apply digits_prefix_length).
  rewrite is_prefix_stacked; [reflexivity|discriminate|reflexivity].
Qed.

Lemma score_on_line_stacked : forall s b,
  score_on_line (stacked s b) = score_on_line s.
Proof.
  induction s as [|c s IH]; intros b.
  - change (stacked [] b) with (10%N :: b). cbn [score_on_line].
    change (10%N :: b) with (stacked [] b). rewrite score_here_stacked.
    destruct (score_here []); reflexivity.
  - change (stacked (c :: s) b) with (c :: stacked s b). cbn [score_on_line].
    change (c :: stacked s b) with (stacked (c :: s) b).
    rewrite score_here_stacked, IH. reflexivity.
Qed.

Lemma cell_text_stacked : forall s b,
  cell_text (stacked s b) = cell_text s.
Proof.
  induction s as [|c s IH]; intros b.
  - change (stacked [] b) with (10%N :: b). cbn [cell_text].
    change (10%N :: b) with (stacked [] b).
    rewrite is_prefix_stacked; [reflexivity|discriminate|reflexivity].
  - change (stacked (c :: s) b) with (c :: stacked s b). cbn [cell_text].
    change (c :: stacked s b) with (stacked (c :: s) b).
    rewrite is_prefix_stacked, IH; [reflexivity|discriminate|reflexivity].
Qed.

Lemma severity_here_stacked : forall s b,
  severity_here score_on_line (stacked s b) = severity_here score_on_line s.
Proof.
  intros s b. unfold severity_here.
  rewrite is_prefix_stacked; [|discriminate|reflexivity].
  destruct (is_prefix (lit "Severity") s) eqn:P; [|reflexivity].
  rewrite skipn_stacked by (now apply is_prefix_length).
  apply score_on_line_stacked.
Qed.

Lemma impact_row_here_stacked : forall s b,
  impact_row_here (stacked s b) = impact_row_here s.
Proof.
  intros s b. unfold impact_row_here.
  rewrite is_prefix_stacked; [|discriminate|reflexivity].
  destruct (is_prefix impact_label_cell s) eqn:P; [|reflexivity].
  rewrite skipn_stacked by (now apply is_prefix_length).
  apply cell_text_stacked.
Qed.

(** A leftmost search over two stacked texts: the first text decides when
    it has a match. *)
Lemma first_match_stacked :
  forall (A : Type) (f : jsstring -> option A) b,
    (forall s, f (stacked s b) = f s) ->
    forall a,
      first_match f (stacked a b) =
      match first_match f a with
      | Some x => Some x
      | None => first_match f b
      end.
Proof.
  intros A f b Hf. induction a as [|c a IH].
  - change (stacked [] b) with (10%N :: b). cbn [first_match].
    change (10%N :: b) with (stacked [] b). rewrite Hf.
    destruct (f []); reflexivity.
  - change (stacked (c :: a) b) with (c :: stacked a b). cbn [first_match].
    change (c :: stacked a b) with (stacked (c :: a) b). rewrite Hf.
    destruct (f (c :: a)); [reflexivity|exact IH].
Qed.

End StackFacts.

Import StackFacts.

(** X13. Counting composes over reports put one after the other on
    separate lines: the replace and repair counts of the whole are the
    sums of the occurrences in the parts, and the fraud risk is the level
    of the summed risk tokens. *)
Theorem stacked_counts_add : forall a b,
  replaceCount (parseAnalysisMetrics (stacked a b))
  = Num (Z.of_nat (occurrences (lit "[REPLACE]") a
                   + occurrences (lit "[REPLACE]") b)) /\
  repairCount (parseAnalysisMetrics (stacked a b))
  = Num (Z.of_nat (occurrences (lit "[REPAIR]") a
                   + occurrences (lit "[REPAIR]") b)) /\
  fraudRisk (parseAnalysisMetrics (stacked a b))
  = risk_level (risk_token_count a + risk_token_count b).
Proof.
  intros a b. rewrite parseAnalysisMetrics_fields.
  cbn [replaceCount repairCount fraudRisk].
  rewrite CountFacts.suspicious_count_spec, CountFacts.replace_count_spec,
    CountFacts.repair_count_spec, risk_of_count_level.
  unfold risk_token_count.
  rewrite !occurrences_stacked by (discriminate || reflexivity).
  repeat split. f_equal. lia.
Qed.

(** X14. For two reports put one after the other on separate lines, the
    first one that has a severity pattern gives the severity score, and
    the first one that has a primary-impact row gives the primary impact;
    the second report is consulted only when the first has none. *)
Theorem stacked_first_report_wins : forall a b,
  severityScore (parseAnalysisMetrics (stacked a b))
  = match severity_run_on_line a with
    | Some _ => severityScore (parseAnalysisMetrics a)
    | None => severityScore (parseAnalysisMetrics b)
    end /\
  primaryImpact (parseAnalysisMetrics (stacked a b))
  = match primary_impact_row a with
    | Some _ => primaryImpact (parseAnalysisMetrics a)
    | None => primaryImpact (parseAnalysisMetrics b)
    end.
Proof.
  intros a b. rewrite !parseAnalysisMetrics_fields.
  cbn [severityScore primaryImpact].
  rewrite !SeverityFacts.severity_field_spec, !ImpactFacts.impact_field_spec.
  unfold severity_run_on_line, primary_impact_row.
  rewrite (first_match_stacked _ b
             (fun s => severity_here_stacked s b) a).
  rewrite (first_match_stacked _ b
             (fun s => impact_row_here_stacked s b) a).
  split.
  - destruct (first_match (severity_here score_on_line) a); reflexivity.
  - destruct (first_match impact_row_here a); reflexivity.
Qed.

(* ===================================================================== *)
(** ** Further properties of the orchestration                            *)
(* ===================================================================== *)

Module FlowFacts.




End FlowFacts.

Import FlowFacts.



(** X16. An empty answer is shown as a finished report: when the
    credential is present, the images are readable and the remote call
    returns an empty or absent text, a submitted analysis ends in
    [COMPLETE] (not [ERROR]), its Markdown is the placeholder text and its
    metrics are the defaults: severity 0, fraud risk LOW, no replacement,
    no repair, primary impact Unknown. *)
Theorem empty_answer_completes :
  forall API_KEY generateContent toLowerCase now input c response,
    truthy API_KEY = true ->
    forallb readable (images input) = true ->
    generateContent
      (analysis_request
         (map image_part (images input) ++ [text_part (userPrompt input)]))
    = inr response ->
    truthy (response_text response) = false ->
    let c' := handleAnalysis API_KEY generateContent toLowerCase now input c in
    appState c' = COMPLETE /\
    exists img,
      result c' = Some {| markdown := placeholder; diagram := img;
                          timestamp := now; metrics := default_metrics |}.
Proof.
  intros API_KEY generateContent toLowerCase now input c response K R G T c'.
  subst c'. unfold handleAnalysis.
  rewrite analyzeAccident_cases, K, R, G. cbn [negb].
  unfold text_or_placeholder. rewrite T.
  destruct (generateImpactDiagram_settles API_KEY generateContent toLowerCase
              input) as [img D].
  rewrite D. cbn [promise_all2 appState result]. split; [reflexivity|].
  exists img. reflexivity.
Qed.

Lemma empty_answer_completes_witness :
  appState (handleAnalysis some_key empty_text_service ascii_lower 9%Z
              photo_input initial) = COMPLETE /\
  exists img,
    result (handleAnalysis some_key empty_text_service ascii_lower 9%Z
              photo_input initial)
    = Some {| markdown := placeholder; diagram := img;
              timestamp := 9%Z; metrics := default_metrics |}.
Proof.
  apply (@empty_answer_completes some_key empty_text_service ascii_lower 9%Z
           photo_input initial
           {| response_text := Some []; candidates := None |});
    reflexivity.
Defined.

(* ===================================================================== *)
(** ** Properties of the report view                                      *)
(* ===================================================================== *)

(** X17. The value of the primary-impact card is never empty and never
    longer than 21 code units: a label of 1 to 20 code units is shown as
    it is, a longer one is cut to its first 18 code units followed by
    three dots, and an empty one is shown as Undetermined. *)
Theorem impact_value_bounds : forall m,
  impact_value m <> [] /\
  length (impact_value m) <= 21 /\
  (0 < length (primaryImpact m) <= 20 -> impact_value m = primaryImpact m) /\
  (20 < length (primaryImpact m) ->
   impact_value m = firstn 18 (primaryImpact m) ++ lit "...") /\
  (primaryImpact m = [] -> impact_value m = lit "Undetermined").
Proof.
  intros m. unfold impact_value.
  destruct (20 <? length (primaryImpact m)) eqn:L.
  - apply Nat.ltb_lt in L.
    assert (Len : length (firstn 18 (primaryImpact m) ++ lit "...") = 21).
    { rewrite length_app, length_firstn.
      change (length (lit "...")) with 3. lia. }
    repeat split.
    + intros E. rewrite E in Len. discriminate.
    + rewrite Len. lia.
    + intros H. lia.
    + intros E. rewrite E in L. cbn [length] in L. lia.
  - apply Nat.ltb_ge in L.
    destruct (primaryImpact m) as [|c s] eqn:P; cbn [truthy].
    + repeat split; try discriminate; try reflexivity.
      * cbn. lia.
      * cbn [length]. lia.
      * cbn [length]. lia.
    + repeat split; try discriminate; try reflexivity; lia.
Qed.

Lemma impact_value_bounds_witness :
  impact_value (parseAnalysisMetrics stub_report)
  = lit "Rear Bumper Reinfo...".
Proof.
  apply (proj1 (proj2 (proj2 (proj2
           (impact_value_bounds (parseAnalysisMetrics stub_report)))))).
  vm_compute. lia.
Defined.

(** X18. For every report, the two signs of the severity card agree: the
    card is coloured as danger exactly when its subtext reads Structural
    Compromise; and a report without a severity pattern gets a neutral
    card reading Cosmetic / Bolt-On. *)
Theorem severity_card_consistent : forall d,
  (getSeverityType (parseAnalysisMetrics d) = danger <->
   severity_subtext (parseAnalysisMetrics d) = lit "Structural Compromise") /\
  (severity_run_on_line d = None ->
   getSeverityType (parseAnalysisMetrics d) = neutral /\
   severity_subtext (parseAnalysisMetrics d) = lit "Cosmetic / Bolt-On").
Proof.
  intros d. split.
  - unfold getSeverityType, severity_subtext, number_ge, number_gt.
    destruct (severityScore (parseAnalysisMetrics d)) as [|z|[|]].
    + split; discriminate.
    + destruct (8 <=? z)%Z eqn:G8, (7 <? z)%Z eqn:G7.
      * split; reflexivity.
      * apply Z.leb_le in G8. apply Z.ltb_ge in G7. lia.
      * apply Z.leb_gt in G8. apply Z.ltb_lt in G7. lia.
      * destruct (5 <=? z)%Z; split; discriminate.
    + split; discriminate.
    + split; reflexivity.
  - intros R. rewrite parseAnalysisMetrics_fields.
    unfold getSeverityType, severity_subtext. cbn [severityScore].
    rewrite SeverityFacts.severity_field_spec, R. split; reflexivity.
Qed.

Lemma severity_card_consistent_witness :
  getSeverityType (parseAnalysisMetrics heading_report) = neutral /\
  severity_subtext (parseAnalysisMetrics heading_report)
  = lit "Cosmetic / Bolt-On".
Proof.
  apply (proj2 (severity_card_consistent heading_report)).
  vm_compute. reflexivity.
Defined.

(** X19. For every report, the fraud card follows the number of risk
    tokens in it: none gives a success card, exactly one a warning card,
    two or more a danger card; the subtext reads Requires Manual Review
    with two or more and Pattern Consistent otherwise. *)
Theorem fraud_card_by_tokens : forall d,
  getFraudType (parseAnalysisMetrics d)
  = match risk_token_count d with
    | 0 => success
    | 1 => warning
    | _ => danger
    end /\
  fraud_subtext (parseAnalysisMetrics d)
  = if 2 <=? risk_token_count d then lit "Requires Manual Review"
    else lit "Pattern Consistent".
Proof.
  intros d. rewrite parseAnalysisMetrics_fields.
  unfold getFraudType, fraud_subtext. cbn [fraudRisk].
  rewrite CountFacts.suspicious_count_spec.
  destruct (risk_token_count d) as [|[|n]]; split; reflexivity.
Qed.

Module CellFacts.

Lemma strip_brackets_clean : forall content,
  forallb (fun c => negb (N.eqb c 91 || N.eqb c 93)) (strip_brackets content)
  = true.
Proof.
  intros content. apply forallb_forall. intros c H.
  unfold strip_brackets in H. apply filter_In in H. now destruct H.
Qed.

Lemma risk_token_included : forall content,
  0 < risk_token_count content ->
  includes content (lit "[INCONSISTENT]") || includes content (lit "[FAIL]")
  || includes content (lit "[SUSPICIOUS]")
  || includes content (lit "[DETECTED]") = true.
Proof.
  intros content H. unfold risk_token_count in H.
  destruct (includes content (lit "[INCONSISTENT]")) eqn:I1; [reflexivity|].
  destruct (includes content (lit "[FAIL]")) eqn:I2; [reflexivity|].
  destruct (includes content (lit "[SUSPICIOUS]")) eqn:I3; [reflexivity|].
  destruct (includes content (lit "[DETECTED]")) eqn:I4; [reflexivity|].
  rewrite (not_includes_occurrences _ _ I1), (not_includes_occurrences _ _ I2),
    (not_includes_occurrences _ _ I3), (not_includes_occurrences _ _ I4) in H.
  lia.
Qed.

End CellFacts.

Import CellFacts.

(** X20. The cell renderer is in step with the extractor: a table cell in
    which the extractor counts a [[REPLACE]] is drawn as the REPLACE
    badge; one in which it counts a [[REPAIR]] or a risk token is always
    drawn as a badge, never as plain text; a cell with a risk token and
    none of the other status tokens is drawn as an alert badge; and the
    label of a badge holds no bracket. *)
Theorem counted_cells_are_badges : forall content,
  (0 < occurrences (lit "[REPLACE]") content -> td content = ReplaceBadge) /\
  (0 < occurrences (lit "[REPAIR]") content -> td content <> PlainCell) /\
  (0 < risk_token_count content -> td content <> PlainCell) /\
  (0 < risk_token_count content ->
   includes content (lit "[REPLACE]") = false ->
   includes content (lit "[INSPECT]") = false ->
   includes content (lit "[REPAIR]") = false ->
   includes content (lit "[CONSISTENT]") = false ->
   includes content (lit "[PASS]") = false ->
   includes content (lit "[CLEAR]") = false ->
   td content = AlertBadge (strip_brackets content)) /\
  (forall label,
      td content = ActionBadge label \/ td content = ClearBadge label \/
      td content = AlertBadge label ->
      forallb (fun c => negb (N.eqb c 91 || N.eqb c 93)) label = true).
Proof.
  intros content. repeat split.
  - intros H. apply includes_occurrences in H. unfold td. now rewrite H.
  - intros H. apply includes_occurrences in H. unfold td. rewrite H.
    rewrite orb_true_r.
    destruct (includes content (lit "[REPLACE]")); discriminate.
  - intros H. apply risk_token_included in H. unfold td. rewrite H.
    repeat match goal with
           | |- context [if ?c then _ else _] => destruct c
           end; discriminate.
  - intros H R1 R2 R3 R4 R5 R6. apply risk_token_included in H.
    unfold td. now rewrite R1, R2, R3, R4, R5, R6, H.
  - intros label H. unfold td in H.
    repeat match type of H with
           | context [if ?c then _ else _] => destruct c
           end;
      destruct H as [H|[H|H]]; try discriminate; inversion H;
      apply strip_brackets_clean.
Qed.

Lemma counted_cells_are_badges_witness :
  td (lit "[INCONSISTENT]") = AlertBadge (lit "INCONSISTENT").
Proof.
  apply (proj1 (proj2 (proj2 (proj2
           (counted_cells_are_badges (lit "[INCONSISTENT]"))))));
    vm_compute; reflexivity.
Defined.

(* ===================================================================== *)
(** ** Properties of the intake form                                      *)
(* ===================================================================== *)

Module FormFacts.

Lemma create_previews_length :
  forall (Browser : Type) (create : File -> Browser -> jsstring * Browser)
         files b,
    length (fst (create_previews create files b)) = length files.
Proof.
  intros Browser create. induction files as [|f files IH]; intros b;
    [reflexivity|].
  cbn [create_previews]. destruct (create f b) as [url b1].
  specialize (IH b1). destruct (create_previews create files b1) as [urls b2].
  cbn [fst length] in *. now rewrite IH.
Qed.

Lemma splice1_length : forall (A : Type) index (a : list A),
  length (splice1 index a)
  = if index <? length a then length a - 1 else length a.
Proof.
  intros A index a. unfold splice1.
  rewrite length_app, length_firstn, length_skipn.
  destruct (Nat.ltb_spec index (length a)); lia.
Qed.

(** What is left after a removal: the entries before the index stay, the
    later ones move up by one. *)
Lemma nth_error_splice1 : forall (A : Type) index (a : list A) j,
  nth_error (splice1 index a) j
  = nth_error a (if j <? index then j else S j).
Proof.
  intros A index a j. unfold splice1.
  destruct (Nat.ltb_spec j (length (firstn index a))) as [Hj|Hj].
  - rewrite nth_error_app1 by assumption. rewrite nth_error_firstn.
    rewrite length_firstn in Hj.
    destruct (Nat.ltb_spec j index); [reflexivity|lia].
  - rewrite nth_error_app2 by assumption. rewrite nth_error_skipn.
    rewrite length_firstn in *.
    destruct (Nat.ltb_spec j index) as [Hi|Hi].
    + transitivity (@None A); [|symmetry]; apply nth_error_None; lia.
    + destruct (Nat.le_ge_cases index (length a)) as [Hl|Hl].
      * f_equal. lia.
      * transitivity (@None A); [|symmetry]; apply nth_error_None; lia.
Qed.

(** Without interleaved events, the two halves of [handleAutoDetect] make
    up the whole. *)
Lemma handleAutoDetect_two_phases :
  forall API_KEY generateStructured JSON_parse s,
    handleAutoDetect API_KEY generateStructured JSON_parse s
    = match handleAutoDetect_begin API_KEY generateStructured JSON_parse s with
      | Some (s1, outcome) => handleAutoDetect_settle outcome s1
      | None => s
      end.
Proof.
  intros API_KEY generateStructured JSON_parse s.
  unfold handleAutoDetect, handleAutoDetect_begin, handleAutoDetect_settle.
  destruct (length (f_images s) =? 0); [reflexivity|].
  destruct (identifyVehicleFromImage _ _ _ _); reflexivity.
Qed.

End FormFacts.

Import FormFacts.



(** X22. Removing the image at an index drops exactly that image and its
    preview: in both lists the entries before the index stay where they
    are and the later ones move up by one, so each remaining preview still
    stands at the index of its image; the lists get one shorter, and the
    URL that is revoked is the removed preview. *)
Theorem remove_image_at_index :
  forall (Browser : Type) (revoke : jsstring -> Browser -> Browser)
         s b index,
    index < length (f_images s) ->
    length (f_imagePreviews s) = length (f_images s) ->
    let st' := removeImage revoke index (s, b) in
    (forall j, nth_error (f_images (fst st')) j
               = nth_error (f_images s) (if j <? index then j else S j)) /\
    (forall j, nth_error (f_imagePreviews (fst st')) j
               = nth_error (f_imagePreviews s)
                   (if j <? index then j else S j)) /\
    length (f_images (fst st')) = length (f_images s) - 1 /\
    length (f_imagePreviews (fst st')) = length (f_images (fst st')) /\
    (exists url, nth_error (f_imagePreviews s) index = Some url /\
                 snd st' = revoke url b) /\
    handleSubmit (fst st')
    = {| vehicle := vehicle (handleSubmit s);
         description := description (handleSubmit s);
         context := context (handleSubmit s);
         images := splice1 index (f_images s) |}.
Proof.
  intros Browser revoke s b index Hi Hl st'. subst st'. unfold removeImage.
  cbn [fst snd f_imagePreviews f_images setImagePreviews setImages].
  repeat split.
  - intros j. apply nth_error_splice1.
  - intros j. apply nth_error_splice1.
  - rewrite splice1_length.
    destruct (Nat.ltb_spec index (length (f_images s))); lia.
  - rewrite !splice1_length, Hl. reflexivity.
  - destruct (nth_error (f_imagePreviews s) index) as [url|] eqn:E.
    + exists url. split; reflexivity.
    + apply nth_error_None in E. lia.
Qed.

Lemma remove_image_at_index_witness :
  exists url,
    nth_error (f_imagePreviews filled_form) 0 = Some url /\
    snd (removeImage counting_revoke 0
           (filled_form, (2, [lit "blob:1"; lit "blob:0"])))
    = counting_revoke url (2, [lit "blob:1"; lit "blob:0"]).
Proof.
  apply (@remove_image_at_index counting_browser counting_revoke
           filled_form (2, [lit "blob:1"; lit "blob:0"]) 0).
  - cbn. lia.
  - reflexivity.
Defined.

(** X24. Choosing files appends them: the images become the old ones
    followed by the chosen files in order, and the previews the old ones
    followed by one new object URL per chosen file; an empty or absent
    choice changes nothing, and the text fields are never touched. *)
Theorem image_change_appends :
  forall (Browser : Type) (create : File -> Browser -> jsstring * Browser)
         files s b,
    (files = None \/ files = Some [] ->
     handleImageChange create files (s, b) = (s, b)) /\
    (forall newFiles,
        files = Some newFiles -> newFiles <> [] ->
        let st' := handleImageChange create files (s, b) in
        f_images (fst st') = f_images s ++ newFiles /\
        f_imagePreviews (fst st')
        = f_imagePreviews s ++ fst (create_previews create newFiles b) /\
        length (fst (create_previews create newFiles b)) = length newFiles /\
        snd st' = snd (create_previews create newFiles b) /\
        vehicle (handleSubmit (fst st')) = vehicle (handleSubmit s) /\
        description (handleSubmit (fst st')) = f_description s /\
        context (handleSubmit (fst st')) = f_context s).
Proof.
  intros Browser create files s b. split.
  - intros [H|H]; subst files; reflexivity.
  - intros newFiles H Hne st'. subst st' files. unfold handleImageChange.
    destruct newFiles as [|f newFiles]; [congruence|].
    cbn [length Nat.ltb Nat.leb].
    pose proof (create_previews_length create (f :: newFiles) b) as L.
    destruct (create_previews create (f :: newFiles) b) as [urls b1].
    cbn [fst snd] in *. repeat split. exact L.
Qed.

Lemma image_change_appends_witness :
  f_images (fst (handleImageChange counting_create (Some [second_photo])
                   (setImages [photo] initial_form, (1, [lit "blob:0"]))))
  = [photo; second_photo].
Proof.
  apply (proj2 (@image_change_appends counting_browser counting_create
                  (Some [second_photo]) (setImages [photo] initial_form)
                  (1, [lit "blob:0"])) [second_photo]);
    [reflexivity | discriminate].
Defined.

(** X23. Auto-Fill always ends with no identification pending and never
    touches the images, the previews or the context; with no image it does
    nothing at all; when the identification fails the form is left exactly
    as it was; when it succeeds the year, make, model and description are
    replaced by the identified ones. *)
Theorem auto_detect_outcomes :
  forall API_KEY generateStructured JSON_parse s,
    f_isIdentifying s = false ->
    let s' := handleAutoDetect API_KEY generateStructured JSON_parse s in
    f_isIdentifying s' = false /\
    f_images s' = f_images s /\
    f_imagePreviews s' = f_imagePreviews s /\
    f_context s' = f_context s /\
    (f_images s = [] -> s' = s) /\
    (forall e,
        identifyVehicleFromImage API_KEY generateStructured JSON_parse
                                 (f_images s) = inl e ->
        s' = s) /\
    (forall v,
        f_images s <> [] ->
        identifyVehicleFromImage API_KEY generateStructured JSON_parse
                                 (f_images s) = inr v ->
        f_year s' = id_year v /\ f_make s' = id_make v /\
        f_model s' = id_model v /\ f_description s' = id_description v).
Proof.
  intros API_KEY generateStructured JSON_parse s Hi s'. subst s'.
  unfold handleAutoDetect. destruct s as [y mk mo de cx im pv idf].
  cbn [f_isIdentifying f_images] in *. subst idf.
  destruct im as [|f im]; cbn [length Nat.eqb].
  - repeat split; congruence.
  - destruct (identifyVehicleFromImage _ _ _ _) as [e|w];
      repeat split; try discriminate;
      match goal with
      | H : inr _ = inr _ |- _ => inversion H; subst; reflexivity
      end.
Qed.

Lemma auto_detect_outcomes_witness :
  f_year (handleAutoDetect some_key naming_service parse_civic filled_form)
  = lit "2019" /\
  f_make (handleAutoDetect some_key naming_service parse_civic filled_form)
  = lit "Honda" /\
  f_model (handleAutoDetect some_key naming_service parse_civic filled_form)
  = lit "Civic" /\
  f_description
    (handleAutoDetect some_key naming_service parse_civic filled_form)
  = lit "Right (Passenger) rear quarter panel crushed".
Proof.
  pose proof (@auto_detect_outcomes some_key naming_service parse_civic
                filled_form eq_refl) as H.
  destruct H as (_ & _ & _ & _ & _ & _ & H).
  apply (H civic); [discriminate | vm_compute; reflexivity].
Defined.
